(** * AgentScope Studio: chat components and the Reply migration

    A shallow embedding of
    - [components/chat/AsChat/avatar.tsx]  (hashString, getAvatarPathByName,
      AsAvatar),
    - the [AsChat] component (organizedReplies, the auto-scroll effect and
      handleScroll),
    - the TypeORM migration [AddMessageReplyForeignKey1730000000000]
      (up and down),
    followed by the properties proved about them.

    JavaScript numbers that the code only uses as integers are [Z]; the
    32-bit conversions of the bit operators and the rounding of [+] and [-]
    to double precision are written out.  Strings are [string]s whose
    characters stand for code units below 256; on such strings JavaScript's
    [<] and SQLite's BINARY collation both coincide with the byte-wise
    order used here.  Text that upper-casing can take beyond 255 is a list
    of code units. *)

From Stdlib Require Import ZArith List String Ascii Bool Arith Lia.
From Stdlib Require Import OrderedTypeEx Sorted Permutation.
Import ListNotations.

Local Open Scope string_scope.
Local Open Scope list_scope.

(* ================================================================== *)
(** ** JavaScript primitives used by the components *)

Module JS.

Local Open Scope Z_scope.

(** ToInt32: the signed 32-bit value congruent to [z] modulo 2^32. *)
Definition wrap32 (z : Z) : Z := (z + 2 ^ 31) mod 2 ^ 32 - 2 ^ 31.

(** [a << n] : both operands go through ToInt32, so does the result. *)
Definition shl (a n : Z) : Z := wrap32 (Z.shiftl (wrap32 a) (n mod 32)).

(** [a & b] on the 32-bit values of the operands. *)
Definition band (a b : Z) : Z := wrap32 (Z.land (wrap32 a) (wrap32 b)).

(** The double nearest to the integer [z], ties to even: integers below
    2^53 in magnitude are doubles; beyond, 53 significant bits are kept.
    (Magnitudes stay far below 2^1024 here.) *)
Definition round53 (z : Z) : Z :=
  let a := Z.abs z in
  if a <? 2 ^ 53 then z
  else
    let e := Z.log2 a - 52 in
    let q := a / 2 ^ e in
    let r := a mod 2 ^ e in
    let half := 2 ^ (e - 1) in
    let q' := if r <? half then q
              else if half <? r then q + 1
              else if Z.even q then q else q + 1 in
    Z.sgn z * (q' * 2 ^ e).

(** [a + b] and [a - b] on integer-valued numbers. *)
Definition num_add (a b : Z) : Z := round53 (a + b).
Definition num_sub (a b : Z) : Z := round53 (a - b).

(** [str.charCodeAt(i)] for i = 0 .. str.length - 1. *)
Definition charCodes (str : string) : list Z :=
  map (fun c => Z.of_nat (nat_of_ascii c)) (list_ascii_of_string str).

(** Lower-casing of one code unit below 256: A-Z, and the capital letters
    of Latin-1 (192-222 without the multiplication sign 215). *)
Definition lower_ascii (c : ascii) : ascii :=
  let n := nat_of_ascii c in
  if ((65 <=? n) && (n <=? 90))%nat then ascii_of_nat (n + 32)
  else if ((192 <=? n) && (n <=? 222) && negb (n =? 215))%nat
       then ascii_of_nat (n + 32)
  else c.

(** Upper-casing of one code unit below 256, as code units: a-z and the
    small letters of Latin-1 (224-254 without the division sign 247) move
    down by 32; the sharp s (223) becomes "SS"; the micro sign (181) and
    y with diaeresis (255) become the letters 924 and 376. *)
Definition upper_codes (c : ascii) : list Z :=
  let n := Z.of_nat (nat_of_ascii c) in
  if (97 <=? n) && (n <=? 122) then [n - 32]
  else if n =? 181 then [924]
  else if n =? 223 then [83; 83]
  else if n =? 255 then [376]
  else if (224 <=? n) && (n <=? 254) && negb (n =? 247) then [n - 32]
  else [n].

Fixpoint map_string (f : ascii -> ascii) (s : string) : string :=
  match s with
  | EmptyString => EmptyString
  | String c r => String (f c) (map_string f r)
  end.

(** [str.toLowerCase()]. *)
Definition toLowerCase : string -> string := map_string lower_ascii.

(** [str.toUpperCase()], as the code units of the result. *)
Fixpoint toUpperCase (s : string) : list Z :=
  match s with
  | EmptyString => []
  | String c r => upper_codes c ++ toUpperCase r
  end.

(** [str.slice(0, n)]. *)
Definition slice0 (n : nat) (str : string) : string := substring 0 n str.

(** A string is falsy exactly when it is empty. *)
Definition nonempty (s : string) : bool := negb (s =? "")%string.

(** [a[i]] on an array: [None] stands for [undefined]. *)
Definition array_get {A} (a : list A) (i : Z) : option A :=
  if i <? 0 then None else nth_error a (Z.to_nat i).

End JS.

(* ================================================================== *)
(** ** avatar.tsx *)

Module Avatar.

Import JS.

(** One iteration of the loop of [hashString]:
    [hash = (hash << 5) - hash + char; hash = hash & hash]. *)
Definition hash_step (hash char : Z) : Z :=
  let hash := num_add (num_sub (shl hash 5) hash) char in
  band hash hash.

Fixpoint hash_loop (hash : Z) (codes : list Z) {struct codes} : Z :=
  match codes with
  | [] => hash
  | char :: rest => hash_loop (hash_step hash char) rest
  end.

Definition hashString (str : string) (seed : Z) : Z :=
  Z.abs (hash_loop seed (charCodes str)).

(** The rolling hash in the words of the specification: start from the
    seed and, for each character code, replace [hash] by [hash * 31 + c]
    evaluated with 32-bit wrap-around. *)
Definition rolling31 (seed : Z) (codes : list Z) : Z :=
  fold_left (fun hash c => wrap32 (hash * 31 + c)%Z) codes seed.

Section Assets.

(** The list of asset paths found by [import.meta.glob]; it is fixed
    when the module is loaded. *)
Variable AVATAR_PATHS : list string.

Definition getAvatarPathByName (name : string) (seed : Z) : option string :=
  if (List.length AVATAR_PATHS =? 0)%nat then Some ""
  else
    let hash := hashString name seed in
    let index := Z.rem hash (Z.of_nat (List.length AVATAR_PATHS)) in
    array_get AVATAR_PATHS index.

End Assets.

(** What an avatar slot can display. *)
Inductive Element : Type :=
| SystemAvatar
| AvatarComponent (path : string)
| InitialsBadge (text : list Z)      (* the code units of the text *)
| CustomElement (key : nat).

(** The values of type [ReactNode] a render callback can hand back. *)
Inductive ReactNode : Type :=
| NNull
| NUndefined
| NBool (b : bool)
| NNumber (z : Z)
| NString (s : string)
| NElement (e : Element).

(** The test performed by [if (customAvatar)]. *)
Definition truthy (n : ReactNode) : bool :=
  match n with
  | NNull | NUndefined => false
  | NBool b => b
  | NNumber z => negb (z =? 0)%Z
  | NString s => nonempty s
  | NElement _ => true
  end.

(** The props of [AsAvatar]. *)
Record Props : Type := mkProps {
  name : string;
  role : string;
  randomAvatar : bool;
  seed : Z;
  renderAvatar : option (string -> string -> ReactNode)
}.

(** The component's state: the asset set by [setAvatarComponent], if any. *)
Definition State : Type := option string.

(** The effect of [AsAvatar]: the path whose load is started, if any. *)
Definition requestedAvatar (paths : list string) (p : Props) : option string :=
  if randomAvatar p && negb (toLowerCase (role p) =? "system")%string then
    match getAvatarPathByName paths (name p) (seed p) with
    | Some avatarPath => if nonempty avatarPath then Some avatarPath else None
    | None => None
    end
  else None.

(** The [then] branch of the load: a non-null component replaces the state. *)
Definition onLoaded (component : option string) (st : State) : State :=
  match component with
  | Some c => Some c
  | None => st
  end.

(** The child rendered inside [<Avatar>]. *)
Definition AsAvatar (p : Props) (st : State) : ReactNode :=
  let avatarComponent :=
    match renderAvatar p with
    | Some render =>
        let customAvatar := render (name p) (role p) in
        if truthy customAvatar then Some customAvatar else None
    | None => None
    end in
  match avatarComponent with
  | Some shown => shown
  | None =>
      if (toLowerCase (role p) =? "system")%string then NElement SystemAvatar
      else
        match randomAvatar p, st with
        | true, Some component => NElement (AvatarComponent component)
        | _, _ => NElement (InitialsBadge (toUpperCase (slice0 2 (name p))))
        end
  end.

End Avatar.

(* ================================================================== *)
(** ** AsChat *)

Module Chat.

Record Message : Type := mkMessage {
  id : string;
  name : string;
  role : string;
  timestamp : string;
  content : string
}.

Record Reply : Type := mkReply {
  replyId : string;
  replyName : string;
  replyRole : string;
  createdAt : string;
  finishedAt : string;
  messages : list Message
}.

(** The object pushed for one message in the flattened mode. *)
Definition replyOfMessage (msg : Message) : Reply :=
  {| replyId := id msg;
     replyName := name msg;
     replyRole := role msg;
     createdAt := timestamp msg;
     finishedAt := timestamp msg;
     messages := [msg] |}.

(** [organizedReplies]: the two nested [forEach] loops push onto
    [flattedReplies]. *)
Definition organizedReplies (replies : list Reply) (byReplyId : bool)
  : list Reply :=
  if (List.length replies =? 0)%nat then []
  else if byReplyId then replies
  else
    fold_left
      (fun flattedReplies reply =>
         fold_left
           (fun flattedReplies msg => flattedReplies ++ [replyOfMessage msg])
           (messages reply) flattedReplies)
      replies [].

Local Open Scope Z_scope.

(** The scrolling container, in pixels. *)
Record ScrollBox : Type := mkScrollBox {
  scrollTop : Z;
  scrollHeight : Z;
  clientHeight : Z
}.

(** Assignment to [scrollTop]: the DOM clamps the value to the scrollable
    range [0 .. scrollHeight - clientHeight]. *)
Definition set_scrollTop (v : Z) (el : ScrollBox) : ScrollBox :=
  {| scrollTop := Z.max 0 (Z.min v (scrollHeight el - clientHeight el));
     scrollHeight := scrollHeight el;
     clientHeight := clientHeight el |}.

(** Layout after content of height [h] was appended to the list: the
    content grows, the offset is kept. *)
Definition grow (h : Z) (el : ScrollBox) : ScrollBox :=
  {| scrollTop := scrollTop el;
     scrollHeight := scrollHeight el + h;
     clientHeight := clientHeight el |}.

Record View : Type := mkView {
  isAtBottom : bool;
  bubbleListRef : option ScrollBox
}.

(** The effect that runs when [organizedReplies] or [isAtBottom] change. *)
Definition autoScroll (v : View) : View :=
  match bubbleListRef v with
  | Some current =>
      if isAtBottom v
      then {| isAtBottom := isAtBottom v;
              bubbleListRef :=
                Some (set_scrollTop (scrollHeight current) current) |}
      else v
  | None => v
  end.

(** A reply whose bubble is [h] pixels high is appended, then the effect
    runs. *)
Definition appendReply (h : Z) (v : View) : View :=
  autoScroll {| isAtBottom := isAtBottom v;
                bubbleListRef := option_map (grow h) (bubbleListRef v) |}.

Definition handleScroll (v : View) : View :=
  match bubbleListRef v with
  | Some current =>
      let atBottom :=
        scrollHeight current - scrollTop current - clientHeight current <? 50 in
      {| isAtBottom := atBottom; bubbleListRef := bubbleListRef v |}
  | None => v
  end.

End Chat.

(* ================================================================== *)
(** ** The migration AddMessageReplyForeignKey1730000000000 *)

Module Migration.

Import JS.

(** *** Rows and schema objects *)

(** What the loop reads from a message payload.  A field is [None] when
    the property is missing or null. *)
Record MsgData : Type := mkMsgData {
  role : option string;
  name : option string;
  timestamp : option string
}.

(** The [msg] column as the loop obtains it: either an object (the value
    itself, or what [JSON.parse] returns for the stored text), or a text on
    which [JSON.parse] or the property accesses throw. *)
Inductive Payload : Type :=
| Parsed (msgData : MsgData)
| Malformed.

(** A row of [message_table], restricted to the selected columns. *)
Record MessageRow : Type := mkMessageRow {
  id : string;
  run_id : string;
  msg : Payload;
  replyId : option string          (* [None] is SQL NULL *)
}.

(** The record kept in [replyMap]. *)
Module Info.
Record t : Type := mk {
  replyId : string;
  role : string;
  name : string;
  runId : string;
  createdAt : string;
  finishedAt : string
}.
End Info.

(** A row of [reply_table]. *)
Module ReplyRow.
Record t : Type := mk {
  replyId : string;
  replyRole : string;
  replyName : string;
  run_id : string;
  createdAt : string;
  finishedAt : option string
}.
End ReplyRow.

Record TableForeignKey : Type := mkForeignKey {
  fk_name : string;
  columnNames : list string;
  referencedTableName : string;
  referencedColumnNames : list string;
  onDelete : string
}.

Record ReplyTable : Type := mkReplyTable {
  rows : list ReplyRow.t;
  reply_foreignKeys : list TableForeignKey
}.

(** The part of the database the migration reads and writes. *)
Record Db : Type := mkDb {
  message_table : list MessageRow;
  replyId_isNullable : bool;
  message_foreignKeys : list TableForeignKey;
  reply_table : option ReplyTable      (* [None]: the table does not exist *)
}.

Inductive Error : Type :=
| TableAlreadyExists (table : string)
| NoSuchTable (table : string)
| DuplicateConstraint (fk : string)
| UniqueConstraintFailed (key : string)
| NotNullConstraintFailed
| PayloadError (messageId : string)
| MigrationFailed (count : nat).    (* the [Error] thrown by step 3 *)

(** *** The query runner: state and failure *)

Definition M (A : Type) : Type := Db -> (Error + A) * Db.

Definition ret {A} (a : A) : M A := fun db => (inr a, db).
Definition throw {A} (e : Error) : M A := fun db => (inl e, db).
Definition bind {A B} (c : M A) (k : A -> M B) : M B :=
  fun db =>
    match c db with
    | (inr a, db') => k a db'
    | (inl e, db') => (inl e, db')
    end.
Definition get : M Db := fun db => (inr db, db).
Definition put (db : Db) : M unit := fun _ => (inr tt, db).

Declare Scope query_scope.
Delimit Scope query_scope with query.
Notation "x <- c ;; k" := (bind c (fun x => k))
  (at level 61, c at next level, right associativity) : query_scope.
Notation "c ;; k" := (bind c (fun _ => k))
  (at level 61, right associativity) : query_scope.
Local Open Scope query_scope.

Definition fk_on (column : string) (fk : TableForeignKey) : bool :=
  existsb (String.eqb column) (columnNames fk).

Definition has_fk_named (n : string) (fks : list TableForeignKey) : bool :=
  existsb (fun fk => (fk_name fk =? n)%string) fks.

Fixpoint remove_first {A} (p : A -> bool) (l : list A) : list A :=
  match l with
  | [] => []
  | x :: r => if p x then r else x :: remove_first p r
  end.

Definition is_null_or_empty (r : option string) : bool :=
  match r with
  | Some s => negb (nonempty s)
  | None => true
  end.

(** [ORDER BY id]: insertion into a list sorted by [id]. *)
Fixpoint insert_by_id (m : MessageRow) (l : list MessageRow)
  : list MessageRow :=
  match l with
  | [] => [m]
  | x :: r => if String.leb (id m) (id x) then m :: l
              else x :: insert_by_id m r
  end.

Definition order_by_id (l : list MessageRow) : list MessageRow :=
  fold_right insert_by_id [] l.

Section Driver.

(** Whether the database rejects a second foreign key of the same name
    on a table (SQLite accepts it). *)
Variable unique_fk_names : bool.

(** [queryRunner.createTable(new Table({name: 'reply_table', ...}),
    ifNotExists)]: with [ifNotExists] an existing table is left alone. *)
Definition createTable_reply (ifNotExists : bool) : M unit :=
  db <- get ;;
  match reply_table db with
  | Some _ =>
      if ifNotExists then ret tt else throw (TableAlreadyExists "reply_table")
  | None =>
      put {| message_table := message_table db;
             replyId_isNullable := replyId_isNullable db;
             message_foreignKeys := message_foreignKeys db;
             reply_table := Some {| rows := []; reply_foreignKeys := [] |} |}
  end.

Definition add_fk (fk : TableForeignKey) (fks : list TableForeignKey)
  : Error + list TableForeignKey :=
  if unique_fk_names && has_fk_named (fk_name fk) fks
  then inl (DuplicateConstraint (fk_name fk))
  else inr (fks ++ [fk]).

(** [queryRunner.createForeignKey(table, fk)]. *)
Definition createForeignKey (table : string) (fk : TableForeignKey)
  : M unit :=
  db <- get ;;
  if (table =? "reply_table")%string then
    match reply_table db with
    | None => throw (NoSuchTable table)
    | Some t =>
        match add_fk fk (reply_foreignKeys t) with
        | inl e => throw e
        | inr fks =>
            put {| message_table := message_table db;
                   replyId_isNullable := replyId_isNullable db;
                   message_foreignKeys := message_foreignKeys db;
                   reply_table :=
                     Some {| rows := rows t; reply_foreignKeys := fks |} |}
        end
    end
  else if (table =? "message_table")%string then
    match add_fk fk (message_foreignKeys db) with
    | inl e => throw e
    | inr fks =>
        put {| message_table := message_table db;
               replyId_isNullable := replyId_isNullable db;
               message_foreignKeys := fks;
               reply_table := reply_table db |}
    end
  else throw (NoSuchTable table).

End Driver.

(** [SELECT id, run_id, msg, replyId FROM message_table ORDER BY id]. *)
Definition select_messages : M (list MessageRow) :=
  db <- get ;; ret (order_by_id (message_table db)).

(** The values bound to the six parameters of the INSERT. *)
Definition row_of (reply : Info.t) : ReplyRow.t :=
  {| ReplyRow.replyId := Info.replyId reply;
     ReplyRow.replyRole := Info.role reply;
     ReplyRow.replyName := Info.name reply;
     ReplyRow.run_id := Info.runId reply;
     ReplyRow.createdAt := Info.createdAt reply;
     ReplyRow.finishedAt := Some (Info.finishedAt reply) |}.

(** [INSERT INTO reply_table (...) VALUES (?, ?, ?, ?, ?, ?)]; [replyId] is
    the primary key. *)
Definition insert_reply (reply : Info.t) : M unit :=
  db <- get ;;
  match reply_table db with
  | None => throw (NoSuchTable "reply_table")
  | Some t =>
      if existsb (fun r => (ReplyRow.replyId r =? Info.replyId reply)%string)
           (rows t)
      then throw (UniqueConstraintFailed (Info.replyId reply))
      else
        put {| message_table := message_table db;
               replyId_isNullable := replyId_isNullable db;
               message_foreignKeys := message_foreignKeys db;
               reply_table :=
                 Some {| rows := rows t ++ [row_of reply];
                         reply_foreignKeys := reply_foreignKeys t |} |}
  end.

Definition set_messages (ms : list MessageRow) : M unit :=
  db <- get ;;
  put {| message_table := ms;
         replyId_isNullable := replyId_isNullable db;
         message_foreignKeys := message_foreignKeys db;
         reply_table := reply_table db |}.

Definition with_replyId (r : option string) (m : MessageRow) : MessageRow :=
  {| id := id m; run_id := run_id m; msg := msg m; replyId := r |}.

(** [UPDATE message_table SET replyId = id
     WHERE replyId IS NULL OR replyId = ''] *)
Definition update_replyId_from_id : M unit :=
  db <- get ;;
  set_messages
    (map (fun m => if is_null_or_empty (replyId m)
                   then with_replyId (Some (id m)) m else m)
         (message_table db)).

(** [SELECT COUNT( * ) as count FROM message_table
     WHERE replyId IS NULL OR replyId = ''] *)
Definition count_null_replyId : M nat :=
  db <- get ;;
  ret (List.length
         (filter (fun m => is_null_or_empty (replyId m)) (message_table db))).

(** [queryRunner.changeColumn('message_table', 'replyId',
     new TableColumn({..., isNullable}))]: a NOT NULL column cannot hold
    NULL. *)
Definition changeColumn_replyId (isNullable : bool) : M unit :=
  db <- get ;;
  if negb isNullable
     && existsb (fun m => match replyId m with None => true | _ => false end)
          (message_table db)
  then throw NotNullConstraintFailed
  else put {| message_table := message_table db;
              replyId_isNullable := isNullable;
              message_foreignKeys := message_foreignKeys db;
              reply_table := reply_table db |}.

(** [UPDATE message_table SET replyId = NULL]. *)
Definition update_replyId_null : M unit :=
  db <- get ;;
  if negb (replyId_isNullable db)
     && negb (List.length (message_table db) =? 0)%nat
  then throw NotNullConstraintFailed
  else set_messages (map (with_replyId None) (message_table db)).

(** [queryRunner.getTable('message_table')?.foreignKeys]. *)
Definition getTable_message_foreignKeys : M (list TableForeignKey) :=
  db <- get ;; ret (message_foreignKeys db).

(** [queryRunner.dropForeignKey('message_table', foreignKey)]: the first
    key of that name is removed. *)
Definition dropForeignKey_message (foreignKey : TableForeignKey) : M unit :=
  db <- get ;;
  put {| message_table := message_table db;
         replyId_isNullable := replyId_isNullable db;
         message_foreignKeys :=
           remove_first (fun fk => (fk_name fk =? fk_name foreignKey)%string)
             (message_foreignKeys db);
         reply_table := reply_table db |}.

(** [queryRunner.dropTable('reply_table', ifExists)]. *)
Definition dropTable_reply (ifExists : bool) : M unit :=
  db <- get ;;
  match reply_table db with
  | None => if ifExists then ret tt else throw (NoSuchTable "reply_table")
  | Some _ =>
      put {| message_table := message_table db;
             replyId_isNullable := replyId_isNullable db;
             message_foreignKeys := message_foreignKeys db;
             reply_table := None |}
  end.

(** *** The in-memory [replyMap]: a [Map] iterates in insertion order *)

Definition ReplyMap : Type := list (string * Info.t).

Fixpoint map_get (k : string) (m : ReplyMap) : option Info.t :=
  match m with
  | [] => None
  | (k', v) :: r => if (k' =? k)%string then Some v else map_get k r
  end.

(** [Map.set], also used for an assignment through the reference returned
    by [Map.get]: a key that is present keeps its place. *)
Fixpoint map_set (k : string) (v : Info.t) (m : ReplyMap) : ReplyMap :=
  match m with
  | [] => [(k, v)]
  | (k', v') :: r =>
      if (k' =? k)%string then (k, v) :: r else (k', v') :: map_set k v r
  end.

Definition map_values (m : ReplyMap) : list Info.t := map snd m.

(** [v || d] on an optional string. *)
Definition or_else (v : option string) (d : string) : string :=
  match v with
  | Some s => if nonempty s then s else d
  | None => d
  end.

(** [message.replyId && message.replyId !== ''] *)
Definition hasReplyId (message : MessageRow) : bool :=
  match replyId message with
  | Some r => nonempty r && negb (r =? "")%string
  | None => false
  end.

Definition replyIdToUse (message : MessageRow) : string :=
  if hasReplyId message
  then match replyId message with Some r => r | None => id message end
  else id message.

Section Up.

Variable unique_fk_names : bool.

(** [new Date().toISOString()] as evaluated in the i-th iteration of the
    scan. *)
Variable now : nat -> string.

(** [msgData.role || 'unknown'], [msgData.name || role],
    [msgData.timestamp || new Date().toISOString()]. *)
Definition read_role (msgData : MsgData) : string :=
  or_else (role msgData) "unknown".

Definition read_name (msgData : MsgData) : string :=
  or_else (name msgData) (read_role msgData).

Definition read_timestamp (i : nat) (msgData : MsgData) : string :=
  or_else (timestamp msgData) (now i).

(** The body of the scan for one message whose payload was read. *)
Definition scan_step (i : nat) (message : MessageRow) (msgData : MsgData)
    (replyMap : ReplyMap) : ReplyMap :=
  let role := read_role msgData in
  let name := read_name msgData in
  let timestamp := read_timestamp i msgData in
  match map_get (replyIdToUse message) replyMap with
  | None =>
      map_set (replyIdToUse message)
        {| Info.replyId := replyIdToUse message;
           Info.role := role;
           Info.name := name;
           Info.runId := run_id message;
           Info.createdAt := timestamp;
           Info.finishedAt := timestamp |}
        replyMap
  | Some existing =>
      if String.ltb (Info.finishedAt existing) timestamp
      then
        map_set (replyIdToUse message)
          {| Info.replyId := Info.replyId existing;
             Info.role := role;
             Info.name := name;
             Info.runId := Info.runId existing;
             Info.createdAt := Info.createdAt existing;
             Info.finishedAt := timestamp |}
          replyMap
      else replyMap
  end.

(** [for (const message of allMessages) { ... }] from iteration [i] on. *)
Fixpoint scan (i : nat) (allMessages : list MessageRow)
    (replyMap : ReplyMap) (nullReplyCount : nat)
  : Error + (ReplyMap * nat) :=
  match allMessages with
  | [] => inr (replyMap, nullReplyCount)
  | message :: rest =>
      match msg message with
      | Malformed => inl (PayloadError (id message))
      | Parsed msgData =>
          scan (S i) rest (scan_step i message msgData replyMap)
            (if hasReplyId message then nullReplyCount
             else S nullReplyCount)
      end
  end.

Definition lift {A} (r : Error + A) : M A :=
  match r with
  | inl e => throw e
  | inr a => ret a
  end.

(** [for (const reply of replyMap.values()) { INSERT ... }] *)
Fixpoint insert_replies (replies : list Info.t) : M unit :=
  match replies with
  | [] => ret tt
  | reply :: rest => insert_reply reply ;; insert_replies rest
  end.

Definition FK_reply_run : TableForeignKey :=
  {| fk_name := "FK_reply_run";
     columnNames := ["run_id"];
     referencedTableName := "run_table";
     referencedColumnNames := ["id"];
     onDelete := "CASCADE" |}.

Definition FK_message_reply : TableForeignKey :=
  {| fk_name := "FK_message_reply";
     columnNames := ["replyId"];
     referencedTableName := "reply_table";
     referencedColumnNames := ["replyId"];
     onDelete := "CASCADE" |}.

(** Steps 1 and 2 of [up]: create the table and backfill. *)
Definition up_backfill : M unit :=
  createTable_reply true ;;
  createForeignKey unique_fk_names "reply_table" FK_reply_run ;;
  allMessages <- select_messages ;;
  scanned <- lift (scan 0 allMessages [] 0) ;;
  let replyMap := fst scanned in
  let nullReplyCount := snd scanned in
  insert_replies (map_values replyMap) ;;
  if (0 <? nullReplyCount)%nat then update_replyId_from_id else ret tt.

(** Step 3 of [up]: the integrity check. *)
Definition up_verify : M unit :=
  count <- count_null_replyId ;;
  if (0 <? count)%nat then throw (MigrationFailed count) else ret tt.

(** Step 4 of [up]: NOT NULL and the foreign key. *)
Definition up_constrain : M unit :=
  changeColumn_replyId false ;;
  createForeignKey unique_fk_names "message_table" FK_message_reply.

Definition up : M unit :=
  up_backfill ;; up_verify ;; up_constrain.

End Up.

Definition down : M unit :=
  foreignKeys <- getTable_message_foreignKeys ;;
  match find (fk_on "replyId") foreignKeys with
  | Some foreignKey => dropForeignKey_message foreignKey
  | None => ret tt
  end ;;
  changeColumn_replyId true ;;
  update_replyId_null ;;
  dropTable_reply true.

(** *** Vocabulary for the statements about the scan *)

(** The scanned messages paired with their iteration numbers, from [i]. *)
Definition numbered (i : nat) (msgs : list MessageRow)
  : list (nat * MessageRow) :=
  combine (seq i (List.length msgs)) msgs.

(** The grouping key of a scanned message. *)
Definition key_of (im : nat * MessageRow) : string := replyIdToUse (snd im).

(** The scanned messages of one grouping key, in scan order. *)
Definition group (k : string) (ims : list (nat * MessageRow))
  : list (nat * MessageRow) :=
  filter (fun im => (key_of im =? k)%string) ims.

(** Role, name and timestamp as the scan reads them from a message. *)
Definition role_of (im : nat * MessageRow) : string :=
  match msg (snd im) with
  | Parsed msgData => read_role msgData
  | Malformed => ""
  end.

Definition name_of (im : nat * MessageRow) : string :=
  match msg (snd im) with
  | Parsed msgData => read_name msgData
  | Malformed => ""
  end.

Definition timestamp_of (now : nat -> string) (im : nat * MessageRow)
  : string :=
  match msg (snd im) with
  | Parsed msgData => read_timestamp now (fst im) msgData
  | Malformed => ""
  end.

(** The rows of [reply_table]; none when the table does not exist. *)
Definition reply_rows (db : Db) : list ReplyRow.t :=
  match reply_table db with
  | Some t => rows t
  | None => []
  end.

(** The record [e] kept for key [k] summarizes the group [g]: it was
    created from the first message of [g], and its finishedAt, role and
    name are those of the first message of [g] that carries the greatest
    timestamp of [g]. *)
Definition summarizes (now : nat -> string) (e : Info.t) (k : string)
    (g : list (nat * MessageRow)) : Prop :=
  Info.replyId e = k
  /\ (exists first rest,
        g = first :: rest
        /\ Info.createdAt e = timestamp_of now first
        /\ Info.runId e = run_id (snd first))
  /\ (exists pre im post,
        g = pre ++ im :: post
        /\ Info.finishedAt e = timestamp_of now im
        /\ Info.role e = role_of im
        /\ Info.name e = name_of im
        /\ (forall x, In x pre ->
              String.ltb (timestamp_of now x) (timestamp_of now im) = true)
        /\ (forall x, In x post ->
              String.leb (timestamp_of now x) (timestamp_of now im) = true)).

(** The invariant of the scan after the messages [seen]. *)
Definition scan_inv (now : nat -> string) (seen : list (nat * MessageRow))
    (replyMap : ReplyMap) (nullReplyCount : nat) : Prop :=
  NoDup (map fst replyMap)
  /\ (forall k, In k (map fst replyMap)
                <-> exists im, In im seen /\ key_of im = k)
  /\ (forall k e, map_get k replyMap = Some e ->
                  summarizes now e k (group k seen))
  /\ nullReplyCount
     = List.length (filter (fun im => negb (hasReplyId (snd im))) seen)
  /\ Forall (fun im => exists msgData, msg (snd im) = Parsed msgData) seen.

(** The part of the database that the inserts leave alone. *)
Definition same_messages (db db' : Db) : Prop :=
  message_table db' = message_table db
  /\ replyId_isNullable db' = replyId_isNullable db
  /\ message_foreignKeys db' = message_foreignKeys db.

(** The effect of the UPDATE of step 2 on one row. *)
Definition backfilled (m : MessageRow) : MessageRow :=
  if is_null_or_empty (replyId m) then with_replyId (Some (id m)) m else m.

(** *** Sample databases *)

Definition sample_row (id : string) (replyId : option string)
    (role timestamp : string) : MessageRow :=
  {| id := id;
     run_id := "run-1";
     msg := Parsed {| role := Some role;
                      name := None;
                      timestamp := Some timestamp |};
     replyId := replyId |}.

(** A schema before the migration, holding [messages]. *)
Definition before_migration (messages : list MessageRow) : Db :=
  {| message_table := messages;
     replyId_isNullable := true;
     message_foreignKeys := [];
     reply_table := None |}.

(** One ungrouped message and two messages of reply "A". *)
Definition db_grouping : Db :=
  before_migration
    [ sample_row "1" None "user" "09:00";
      sample_row "2" (Some "A") "assistant" "09:05";
      sample_row "3" (Some "A") "assistant" "09:10" ].

(** Two messages of reply "A"; the later one in scan order is the older. *)
Definition db_out_of_order : Db :=
  before_migration
    [ sample_row "1" (Some "A") "user" "09:10";
      sample_row "2" (Some "A") "assistant" "09:05" ].

(** A message without replyId whose own id is the empty string. *)
Definition db_empty_id : Db :=
  before_migration [ sample_row "" None "user" "09:00" ].

Definition sample_clock : nat -> string :=
  fun _ => "2025-11-01T00:00:00.000Z".

(** The foreign keys of [reply_table]; none when the table does not
    exist. *)
Definition reply_fks (db : Db) : list TableForeignKey :=
  match reply_table db with
  | Some t => reply_foreignKeys t
  | None => []
  end.

(** The error raised when a table to create exists already. *)
Definition is_table_exists (e : Error) : bool :=
  match e with
  | TableAlreadyExists _ => true
  | _ => false
  end.

(** An empty schema before the migration. *)
Definition db_no_messages : Db := before_migration [].

(** Ascending order of the ids. *)
Definition id_le (a b : MessageRow) : Prop :=
  String.leb (id a) (id b) = true.

End Migration.


(* ================================================================== *)
(** ** avatar.tsx: the asset table and the loading of a component *)

Module AvatarAssets.

Import JS Avatar.

(** [s] without the leading [p], when [s] starts with [p]. *)
Fixpoint strip_prefix (p s : string) : option string :=
  match p, s with
  | EmptyString, _ => Some s
  | String a p', String b s' =>
      if Ascii.eqb a b then strip_prefix p' s' else None
  | String _ _, EmptyString => None
  end.

(** [s] without the trailing [suffix], when [s] ends with [suffix]. *)
Fixpoint strip_suffix (suffix s : string) : option string :=
  if (s =? suffix)%string then Some ""
  else
    match s with
    | EmptyString => None
    | String c s' => option_map (String c) (strip_suffix suffix s')
    end.

(** The characters that [.] does not match in a regular expression. *)
Definition is_line_terminator (c : ascii) : bool :=
  Ascii.eqb c "010"%char || Ascii.eqb c "013"%char.

Fixpoint no_line_terminator (s : string) : bool :=
  match s with
  | EmptyString => true
  | String c s' => negb (is_line_terminator c) && no_line_terminator s'
  end.

(** A match of [/\/avatar\/(.+)\.svg$/] that starts at the first character
    of [s]; the result is group 1.  The [$] fixes where [\.svg] stands, so
    the greedy group has one possible extent. *)
Definition match_here (s : string) : option string :=
  match strip_prefix "/avatar/" s with
  | Some rest =>
      match strip_suffix ".svg" rest with
      | Some group1 =>
          if nonempty group1 && no_line_terminator group1
          then Some group1 else None
      | None => None
      end
  | None => None
  end.

(** [path.match(/\/avatar\/(.+)\.svg$/)]: the leftmost start wins; [None]
    is the null result, [Some g] a match whose group 1 is [g]. *)
Fixpoint regexp_match (path : string) : option string :=
  match match_here path with
  | Some group1 => Some group1
  | None =>
      match path with
      | EmptyString => None
      | String _ path' => regexp_match path'
      end
  end.

(** The callback given to [.map]: [match ? match[1] : '']. *)
Definition relative_name (path : string) : string :=
  match regexp_match path with
  | Some group1 => group1
  | None => ""
  end.

(** [avatarModules]: the keys found by [import.meta.glob], each with the
    component its loader resolves to. *)
Definition Modules : Type := list (string * string).

(** [Object.keys(avatarModules).map(...).filter(Boolean)] *)
Definition AVATAR_PATHS (avatarModules : Modules) : list string :=
  filter nonempty (map relative_name (map fst avatarModules)).

(** [avatarModules[fullPath]] *)
Fixpoint loader (fullPath : string) (avatarModules : Modules)
  : option string :=
  match avatarModules with
  | [] => None
  | (key, component) :: rest =>
      if (key =? fullPath)%string then Some component
      else loader fullPath rest
  end.

Definition fullPath_of (path : string) : string :=
  ("../../../assets/svgs/avatar/" ++ path ++ ".svg")%string.

(** The value the promise of [loadAvatarComponent] resolves to; [None] is
    null. *)
Definition loadAvatarComponent (avatarModules : Modules) (path : string)
  : option string :=
  if negb (nonempty path) then None
  else loader (fullPath_of path) avatarModules.

(** How the promise of a loader ends: with a module that has a default
    export, with a module that has none, or rejected. *)
Inductive Fate : Type :=
| Loads
| LoadsNothing
| Rejects.

(** How the promise of [loadAvatarComponent] ends. *)
Inductive Settled : Type :=
| Fulfilled (component : option string)
| Rejected.

(** [loadAvatarComponent] with the fate of every loader: [fate key] tells
    how the promise of the loader of [key] ends. *)
Definition loadAvatarComponent_settled (avatarModules : Modules)
    (fate : string -> Fate) (path : string) : Settled :=
  if negb (nonempty path) then Fulfilled None
  else
    match loader (fullPath_of path) avatarModules with
    | None => Fulfilled None
    | Some component =>
        match fate (fullPath_of path) with
        | Loads => Fulfilled (Some component)
        | LoadsNothing => Fulfilled None
        | Rejects => Rejected
        end
    end.

(** The effect of [AsAvatar] once its promise has settled: [.then] sets the
    state when the component is not null; [.catch] only logs. *)
Definition avatarEffect (avatarModules : Modules) (fate : string -> Fate)
    (p : Props) (st : State) : State :=
  match requestedAvatar (AVATAR_PATHS avatarModules) p with
  | Some avatarPath =>
      match loadAvatarComponent_settled avatarModules fate avatarPath with
      | Fulfilled component => onLoaded component st
      | Rejected => st
      end
  | None => st
  end.

(** A key as the glob pattern ['../../../assets/svgs/avatar/**/*.svg']
    yields it: the fixed directory, a name, the extension. *)
Definition glob_key (key : string) : Prop :=
  exists name_part,
    key = fullPath_of name_part
    /\ nonempty name_part = true
    /\ no_line_terminator name_part = true.

End AvatarAssets.

(* ================================================================== *)
(** ** bubble.tsx and the controls of AsChat *)

Module Bubble.

Import JS Chat.

(** [userAvatarRight && reply.replyRole.toLowerCase() === 'user'] *)
Definition avatarRight (userAvatarRight : bool) (reply : Reply) : bool :=
  userAvatarRight && (toLowerCase (replyRole reply) =? "user")%string.

(** The test under which a message is wrapped in a collapsible hint
    block. *)
Definition isHintMessage (reply : Reply) (msg : Message) : bool :=
  (toLowerCase (role msg) =? "user")%string
  && (toLowerCase (replyRole reply) =? "assistant")%string.

(** The props [AsBubble] hands to [AsAvatar]. *)
Definition avatarProps (reply : Reply) (randomAvatar : bool)
    (renderAvatar : option (string -> string -> Avatar.ReactNode))
  : Avatar.Props :=
  {| Avatar.name := replyName reply;
     Avatar.role := replyRole reply;
     Avatar.randomAvatar := randomAvatar;
     Avatar.seed := 14;
     Avatar.renderAvatar := renderAvatar |}.

End Bubble.

Module ChatControls.

Import Chat.

(** The click handler of the arrow button below the list. *)
Definition scrollToBottomClick (v : View) : View :=
  match bubbleListRef v with
  | Some current =>
      {| isAtBottom := isAtBottom v;
         bubbleListRef :=
           Some (set_scrollTop (scrollHeight current) current) |}
  | None => v
  end.

Definition offset (v : View) : option Z :=
  option_map scrollTop (bubbleListRef v).

(** The scroll event: [handleScroll] runs when the offset has changed; when
    it changes [isAtBottom], the auto-scroll effect runs again. *)
Definition scrolled (before after : View) : View :=
  match offset before, offset after with
  | Some a, Some b =>
      if (a =? b)%Z then after
      else
        let handled := handleScroll after in
        if Bool.eqb (isAtBottom handled) (isAtBottom after) then handled
        else autoScroll handled
  | _, _ => after
  end.

(** Replies of the given heights arrive one after the other, each followed
    by the scroll event it causes. *)
Fixpoint appendReplies (heights : list Z) (v : View) : View :=
  match heights with
  | [] => v
  | h :: rest => appendReplies rest (scrolled v (appendReply h v))
  end.

(** The box is laid out: its client height is between 0 and its scroll
    height. *)
Definition laid_out (el : ScrollBox) : Prop :=
  (0 <= clientHeight el <= scrollHeight el)%Z.

(** The distance of the visible part from the bottom of the content. *)
Definition distance (el : ScrollBox) : Z :=
  (scrollHeight el - scrollTop el - clientHeight el)%Z.

Definition total (heights : list Z) : Z := fold_right Z.add 0%Z heights.

(** [actionType] of the textarea. *)
Definition actionType (isReplying allowInterrupt : bool) : string :=
  if isReplying && allowInterrupt then "interrupt" else "send".

(** The callback that a click ends up calling, with its arguments. *)
Inductive Called (B S : Type) : Type :=
| onInterruptClick_called
| onSendClick_called (blocksInput : B) (structuredInput : S).

Arguments onInterruptClick_called {B S}.
Arguments onSendClick_called {B S} blocksInput structuredInput.

(** [onActionClick]; [hasInterrupt] tells whether [onInterruptClick] was
    supplied. *)
Definition onActionClick {B S} (isReplying allowInterrupt hasInterrupt : bool)
    (blocksInput : B) (structuredInput : S) : Called B S :=
  if isReplying && allowInterrupt && hasInterrupt
  then onInterruptClick_called
  else onSendClick_called blocksInput structuredInput.

End ChatControls.

(* ================================================================== *)
(** ** Vocabulary for further statements about the migration *)

Module MigrationStates.

Import Migration.

(** A schema on which the migration has not run: no [reply_table], a
    nullable replyId, and no foreign key on replyId or of the name that
    [up] uses. *)
Definition pre_migration (db : Db) : Prop :=
  reply_table db = None
  /\ replyId_isNullable db = true
  /\ forall fk, In fk (message_foreignKeys db) ->
       fk_on "replyId" fk = false /\ fk_name fk <> "FK_message_reply".

Definition parsed (m : MessageRow) : Prop :=
  exists msgData, msg m = Parsed msgData.

(** [db] with every replyId set to NULL. *)
Definition without_replyIds (db : Db) : Db :=
  {| message_table := map (with_replyId None) (message_table db);
     replyId_isNullable := replyId_isNullable db;
     message_foreignKeys := message_foreignKeys db;
     reply_table := reply_table db |}.

(** Three messages; the payload of the second cannot be read. *)
Definition db_malformed : Db :=
  before_migration
    [ sample_row "1" None "user" "09:00";
      {| id := "2"; run_id := "run-1"; msg := Malformed;
         replyId := Some "A" |};
      sample_row "3" (Some "A") "assistant" "09:10" ].

(** An ungrouped message whose id is the replyId of another message. *)
Definition db_collision : Db :=
  before_migration
    [ sample_row "A" None "user" "09:00";
      sample_row "B" (Some "A") "assistant" "09:05" ].

End MigrationStates.

(* ================================================================== *)
(** ** initializeDatabase *)

Module Bootstrap.

(** The values of the option object that matter here. *)
Inductive Value : Type :=
| VUndefined
| VBool (b : bool)
| VEntities                 (* the list of entity classes *)
| VMigrations               (* the imported [migrations] *)
| VFunction                 (* a function *)
| VSymbol                   (* a symbol *)
| VData (text : string).    (* any other value, by its JSON text *)

(** An object: its own properties in order, each key once. *)
Definition Obj : Type := list (string * Value).

Fixpoint obj_get (k : string) (o : Obj) : option Value :=
  match o with
  | [] => None
  | (k', v) :: r => if (k' =? k)%string then Some v else obj_get k r
  end.

(** [{...o, k: v}]: the property is overwritten where it stands, or added
    at the end. *)
Fixpoint obj_set (k : string) (v : Value) (o : Obj) : Obj :=
  match o with
  | [] => [(k, v)]
  | (k', v') :: r =>
      if (k' =? k)%string then (k, v) :: r else (k', v') :: obj_set k v r
  end.

Definition options_of (databaseConfig : Obj) : Obj :=
  obj_set "logging" (VBool false)
    (obj_set "migrationsRun" (VBool true)
       (obj_set "migrations" VMigrations
          (obj_set "synchronize" (VBool true)
             (obj_set "entities" VEntities databaseConfig)))).

Definition printingOptions_of (options : Obj) : Obj :=
  obj_set "migrations" VUndefined (obj_set "entities" VUndefined options).

(** Whether [JSON.stringify] writes a property of this value: undefined,
    functions and symbols are left out.  (Values on which it throws, a
    BigInt or a cycle, are not among [Value].) *)
Definition written (v : Value) : bool :=
  match v with
  | VUndefined | VFunction | VSymbol => false
  | _ => true
  end.

(** The properties that [JSON.stringify] writes. *)
Definition stringified (o : Obj) : Obj :=
  filter (fun kv => written (snd kv)) o.

(** What the function does that can be seen from outside, in order. *)
Inductive Event (E : Type) : Type :=
| initialize_called (options : Obj)
| log_options (printed : Obj)
| log_refresh
| updateRunStatusAtBeginning_called
| updateInputRequests_called
| log_done
| error_logged (error : E).

Arguments initialize_called {E} options.
Arguments log_options {E} printed.
Arguments log_refresh {E}.
Arguments updateRunStatusAtBeginning_called {E}.
Arguments updateInputRequests_called {E}.
Arguments log_done {E}.
Arguments error_logged {E} error.

Section Collaborators.

(** The errors, and the outcome of the three awaited calls: [None] when
    the call returns, [Some e] when it throws [e]. *)
Variable E : Type.
Variable initialize : Obj -> option E.
Variable updateRunStatusAtBeginning : option E.
Variable updateInputRequests : option E.

(** The body of the [try] block: the events, and the error thrown if
    any. *)
Definition try_block (databaseConfig : Obj) : list (Event E) * option E :=
  let options := options_of databaseConfig in
  match initialize options with
  | Some e => ([initialize_called options], Some e)
  | None =>
      let started :=
        [ initialize_called options;
          log_options (stringified (printingOptions_of options));
          log_refresh;
          updateRunStatusAtBeginning_called ] in
      match updateRunStatusAtBeginning with
      | Some e => (started, Some e)
      | None =>
          match updateInputRequests with
          | Some e => (started ++ [updateInputRequests_called], Some e)
          | None =>
              (started ++ [updateInputRequests_called; log_done], None)
          end
      end
  end.

(** [initializeDatabase]: the [catch] logs the error and throws it again. *)
Definition initializeDatabase (databaseConfig : Obj)
  : list (Event E) * option E :=
  match try_block databaseConfig with
  | (events, Some error) => (events ++ [error_logged error], Some error)
  | (events, None) => (events, None)
  end.

End Collaborators.

(** The five keys that [initializeDatabase] sets itself. *)
Definition own_keys : list string :=
  ["entities"; "synchronize"; "migrations"; "migrationsRun"; "logging"].

End Bootstrap.

(* ================================================================== *)
(** * Properties *)

(** ** Avatar selection *)

Section AvatarFacts.

Import JS Avatar.
Local Open Scope Z_scope.

Lemma wrap32_shift (a k : Z) : wrap32 (a + k * 2 ^ 32) = wrap32 a.
Proof.
  unfold wrap32.
  replace (a + k * 2 ^ 32 + 2 ^ 31) with (a + 2 ^ 31 + k * 2 ^ 32) by ring.
  now rewrite Z_mod_plus_full.
Qed.

Lemma wrap32_decomp (a : Z) : exists k, wrap32 a = a + k * 2 ^ 32.
Proof.
  exists (- ((a + 2 ^ 31) / 2 ^ 32)).
  unfold wrap32. rewrite Z.mod_eq by lia. ring.
Qed.

Lemma wrap32_range (a : Z) : - 2 ^ 31 <= wrap32 a < 2 ^ 31.
Proof.
  unfold wrap32.
  pose proof (Z.mod_pos_bound (a + 2 ^ 31) (2 ^ 32) ltac:(lia)). lia.
Qed.

Lemma wrap32_small (a : Z) : - 2 ^ 31 <= a < 2 ^ 31 -> wrap32 a = a.
Proof.
  intros Ha. unfold wrap32. rewrite Z.mod_small; lia.
Qed.

Lemma wrap32_idem (a : Z) : wrap32 (wrap32 a) = wrap32 a.
Proof. apply wrap32_small, wrap32_range. Qed.

Lemma band_diag (a : Z) : band a a = wrap32 a.
Proof. unfold band. now rewrite Z.land_diag, wrap32_idem. Qed.

Lemma shl_5 (a : Z) : shl a 5 = wrap32 (a * 32).
Proof.
  unfold shl. change (5 mod 32) with 5.
  rewrite Z.shiftl_mul_pow2 by lia. change (2 ^ 5) with 32.
  destruct (wrap32_decomp a) as [k ->].
  replace ((a + k * 2 ^ 32) * 32) with (a * 32 + (k * 32) * 2 ^ 32) by ring.
  apply wrap32_shift.
Qed.

Lemma round53_small (z : Z) : Z.abs z < 2 ^ 53 -> round53 z = z.
Proof.
  intros H. unfold round53. apply Z.ltb_lt in H. now rewrite H.
Qed.

(** The loop body ends with a conversion to 32 bits. *)
Lemma hash_step_range (hash char : Z) :
  - 2 ^ 31 <= hash_step hash char < 2 ^ 31.
Proof. unfold hash_step. cbv zeta. rewrite band_diag. apply wrap32_range. Qed.

(** Where the arithmetic is exact, the shift-and-subtract of the loop body
    is multiplication by 31. *)
Lemma hash_step_31 (hash char : Z) :
  Z.abs hash <= 2 ^ 52 ->
  0 <= char < 2 ^ 16 ->
  hash_step hash char = wrap32 (hash * 31 + char).
Proof.
  intros Hh Hc. unfold hash_step. cbv zeta. rewrite band_diag, shl_5.
  pose proof (wrap32_range (hash * 32)) as Hr.
  unfold num_add, num_sub.
  rewrite (round53_small (wrap32 (hash * 32) - hash)) by lia.
  rewrite round53_small by lia.
  destruct (wrap32_decomp (hash * 32)) as [k ->].
  replace (hash * 32 + k * 2 ^ 32 - hash + char)
    with (hash * 31 + char + k * 2 ^ 32) by ring.
  apply wrap32_shift.
Qed.

Lemma hash_loop_rolling31 (codes : list Z) (seed : Z) :
  Forall (fun c => 0 <= c < 2 ^ 16) codes ->
  Z.abs seed <= 2 ^ 52 ->
  hash_loop seed codes = rolling31 seed codes.
Proof.
  unfold rolling31. intros Hcodes. revert seed.
  induction Hcodes as [|c codes Hc _ IH]; intros seed Hseed;
    cbn [hash_loop fold_left].
  - reflexivity.
  - rewrite (hash_step_31 seed c Hseed Hc). apply IH.
    pose proof (wrap32_range (seed * 31 + c)). lia.
Qed.

Lemma charCodes_range (str : string) :
  Forall (fun c => 0 <= c < 2 ^ 16) (charCodes str).
Proof.
  unfold charCodes. induction str as [|a str IH]; simpl; constructor.
  - pose proof (nat_ascii_bounded a). lia.
  - exact IH.
Qed.

Lemma array_get_in_range {A} (a : list A) (i : Z) :
  0 <= i < Z.of_nat (List.length a) ->
  exists x, array_get a i = Some x /\ In x a.
Proof.
  intros Hi. unfold array_get.
  destruct (Z.ltb_spec i 0) as [?|_]; [lia|].
  destruct (nth_error a (Z.to_nat i)) as [x|] eqn:E.
  - exists x. split; [reflexivity|]. eapply nth_error_In; eauto.
  - apply nth_error_None in E. lia.
Qed.

End AvatarFacts.

Example hashString_alice : Avatar.hashString "alice" 14 = 493711154%Z.
Proof. reflexivity. Qed.

(** Here the 32-bit value is negative; [Math.abs] flips it. *)
Example hashString_assistant :
  Avatar.hash_loop 14 (JS.charCodes "assistant") = (-1321360752)%Z
  /\ Avatar.hashString "assistant" 14 = 1321360752%Z.
Proof. split; reflexivity. Qed.

Example getAvatarPathByName_Friday :
  Avatar.getAvatarPathByName
    ["fairytale/001-frog"; "fairytale/002-wolf"; "space/001-ufo"] "Friday" 14
  = Some "fairytale/001-frog".
Proof. reflexivity. Qed.

(** The claim C7 as written fails for a seed beyond the range in which
    double-precision arithmetic is exact.  With seed 2^60 and the name "a"
    (character code 97), [(hash << 5) - hash + char] is 0 - 2^60 + 97, which
    is rounded to -(2^60 - 128); [hashString] returns 128, whereas the
    rolling hash of the claim, [seed * 31 + 97] with 32-bit wrap-around, is
    97.  Among five assets the code selects index 3, the claim index 2. *)
Lemma hashString_rounds_beyond_exact_range :
  JS.charCodes "a" = [97%Z]
  /\ Avatar.hashString "a" (2 ^ 60) = 128%Z
  /\ Z.abs (Avatar.rolling31 (2 ^ 60) [97%Z]) = 97%Z
  /\ Avatar.getAvatarPathByName ["p0"; "p1"; "p2"; "p3"; "p4"] "a" (2 ^ 60)
     = Some "p3"
  /\ nth_error ["p0"; "p1"; "p2"; "p3"; "p4"] (Z.to_nat (97 mod 5))
     = Some "p2".
Proof. repeat split; vm_compute; reflexivity. Qed.

(** C7 (amended).  For an integer seed of magnitude at most 2^52,
    [hashString] is the absolute value of the rolling hash
    [hash := seed; hash := hash * 31 + c] evaluated with 32-bit
    wrap-around over the character codes of the name, taken in order.
    For every integer seed and a non-empty name, only the first iteration
    can round: the result is the absolute value of that rolling hash
    started from the value of the loop body on the seed and the first
    character code, and run over the remaining codes.  With no asset the
    selected path is the empty string; otherwise the selected path is the
    asset at index [hashString name seed mod (number of assets)], an index
    within the list.  The path is a function of the name, the seed and the
    asset list only. *)
Theorem avatar_path_by_rolling_hash
    (AVATAR_PATHS : list string) (name : string) (seed : Z) :
  ((Z.abs seed <= 2 ^ 52)%Z ->
   Avatar.hashString name seed
     = Z.abs (Avatar.rolling31 seed
                (map (fun a => Z.of_nat (nat_of_ascii a))
                   (list_ascii_of_string name))))
  /\ match name with
     | EmptyString => Avatar.hashString name seed = Z.abs seed
     | String a rest =>
         Avatar.hashString name seed
           = Z.abs (Avatar.rolling31
                      (Avatar.hash_step seed (Z.of_nat (nat_of_ascii a)))
                      (map (fun a => Z.of_nat (nat_of_ascii a))
                         (list_ascii_of_string rest)))
     end
  /\ Avatar.getAvatarPathByName [] name seed = Some ""
  /\ match AVATAR_PATHS with
     | [] => Avatar.getAvatarPathByName AVATAR_PATHS name seed = Some ""
     | _ :: _ =>
         let count := Z.of_nat (List.length AVATAR_PATHS) in
         let index := (Avatar.hashString name seed mod count)%Z in
         (0 <= index < count)%Z
         /\ exists path,
              Avatar.getAvatarPathByName AVATAR_PATHS name seed = Some path
              /\ nth_error AVATAR_PATHS (Z.to_nat index) = Some path
              /\ In path AVATAR_PATHS
     end.
Proof.
  split; [|split; [|split]].
  - intros Hseed. unfold Avatar.hashString, JS.charCodes.
    rewrite hash_loop_rolling31;
      [reflexivity | exact (charCodes_range name) | exact Hseed].
  - destruct name as [|a rest]; [reflexivity|].
    unfold Avatar.hashString, JS.charCodes.
    cbn [list_ascii_of_string map Avatar.hash_loop].
    rewrite hash_loop_rolling31;
      [reflexivity | exact (charCodes_range rest) |].
    pose proof (hash_step_range seed (Z.of_nat (nat_of_ascii a))). lia.
  - reflexivity.
  - destruct AVATAR_PATHS as [|p ps]; [reflexivity|].
    set (paths := p :: ps). cbv zeta.
    assert (Hlen : (0 < Z.of_nat (List.length paths))%Z) by (simpl; lia).
    assert (Hh : (0 <= Avatar.hashString name seed)%Z)
      by (unfold Avatar.hashString; apply Z.abs_nonneg).
    pose proof (Z.mod_pos_bound (Avatar.hashString name seed) _ Hlen) as Hidx.
    split; [exact Hidx|].
    destruct (array_get_in_range paths _ Hidx) as (path & Hget & Hin).
    exists path. split; [|split].
    + unfold Avatar.getAvatarPathByName. simpl List.length at 1.
      cbn [Nat.eqb]. rewrite Z.rem_mod_nonneg by lia. exact Hget.
    + unfold JS.array_get in Hget.
      destruct (Z.ltb_spec
                  (Avatar.hashString name seed mod Z.of_nat (List.length paths))
                  0)%Z; [lia | exact Hget].
    + exact Hin.
Qed.


Lemma avatar_path_by_rolling_hash_witness :
  (Z.abs 14 <= 2 ^ 52)%Z
  /\ Avatar.hashString "alice" 14
     = Z.abs (Avatar.rolling31 14 [97; 108; 105; 99; 101]%Z)
  /\ Z.abs (Avatar.rolling31 14 [97; 108; 105; 99; 101]%Z) = 493711154%Z
  /\ (493711154 mod 3 = 2)%Z
  /\ Avatar.getAvatarPathByName
       ["fairytale/001-frog"; "fairytale/002-wolf"; "space/001-ufo"]
       "alice" 14
     = Some "space/001-ufo".
Proof.
  split; [vm_compute; discriminate|].
  split; [|split; [reflexivity|split; [reflexivity|reflexivity]]].
  apply (proj1 (avatar_path_by_rolling_hash
                  ["fairytale/001-frog"; "fairytale/002-wolf";
                   "space/001-ufo"] "alice" 14)).
  vm_compute; discriminate.
Defined.

(** ** Avatar precedence *)




(** ** The transcript: flattening and auto-scroll *)

Section ChatFacts.

Import Chat.

Lemma push_messages (msgs : list Message) (acc : list Reply) :
  fold_left (fun flattedReplies msg => flattedReplies ++ [replyOfMessage msg])
    msgs acc
  = acc ++ map replyOfMessage msgs.
Proof.
  revert acc. induction msgs as [|m msgs IH]; intros acc; simpl.
  - now rewrite app_nil_r.
  - rewrite IH, <- app_assoc. reflexivity.
Qed.

Lemma push_replies (replies : list Reply) (acc : list Reply) :
  fold_left
    (fun flattedReplies reply =>
       fold_left
         (fun flattedReplies msg => flattedReplies ++ [replyOfMessage msg])
         (messages reply) flattedReplies)
    replies acc
  = acc ++ map replyOfMessage (flat_map messages replies).
Proof.
  revert acc. induction replies as [|r replies IH]; intros acc; simpl.
  - now rewrite app_nil_r.
  - rewrite IH, push_messages, map_app, app_assoc. reflexivity.
Qed.

Lemma organizedReplies_flat (replies : list Reply) :
  organizedReplies replies false
  = map replyOfMessage (flat_map messages replies).
Proof.
  unfold organizedReplies. destruct replies as [|r replies].
  - reflexivity.
  - cbn [List.length Nat.eqb]. now rewrite push_replies.
Qed.

Lemma messages_of_synthesized (msgs : list Message) :
  flat_map messages (map replyOfMessage msgs) = msgs.
Proof.
  induction msgs as [|m msgs IH]; simpl; [reflexivity | now rewrite IH].
Qed.

End ChatFacts.

(** C10.  With the by-reply-id mode off, the list shown by [AsChat] pairs
    off, position by position, with the messages met when the replies are
    traversed in order: the reply at a position has the message's id as
    [replyId], its name and role as [replyName] and [replyRole], its
    timestamp as both [createdAt] and [finishedAt], and that message alone
    as [messages].  So the displayed messages, their number and their order
    are those of the input. *)
Theorem flattened_one_reply_per_message (replies : list Chat.Reply) :
  let shown := Chat.organizedReplies replies false in
  let msgs := flat_map Chat.messages replies in
  Forall2
    (fun reply m =>
       Chat.replyId reply = Chat.id m
       /\ Chat.replyName reply = Chat.name m
       /\ Chat.replyRole reply = Chat.role m
       /\ Chat.createdAt reply = Chat.timestamp m
       /\ Chat.finishedAt reply = Chat.timestamp m
       /\ Chat.messages reply = [m])
    shown msgs
  /\ List.length shown = List.length msgs
  /\ flat_map Chat.messages shown = msgs.
Proof.
  cbv zeta. rewrite organizedReplies_flat.
  split; [|split].
  - induction (flat_map Chat.messages replies) as [|m msgs IH]; simpl.
    + constructor.
    + constructor; [repeat split | exact IH].
  - apply length_map.
  - apply messages_of_synthesized.
Qed.

(** C9.  For a mounted transcript whose client height is between 0 and its
    scroll height: when a reply of height [h >= 0] is appended while
    [isAtBottom] holds, the scroll offset afterwards is the scroll height
    minus the client height; when [isAtBottom] does not hold the offset is
    the one before the append; and [handleScroll] sets [isAtBottom] to true
    exactly when scrollHeight - scrollTop - clientHeight is below 50. *)
Theorem auto_scroll_law (el : Chat.ScrollBox) (h : Z) (atBottom : bool) :
  (0 <= h)%Z ->
  (0 <= Chat.clientHeight el <= Chat.scrollHeight el)%Z ->
  (exists el',
      Chat.bubbleListRef (Chat.appendReply h (Chat.mkView true (Some el)))
        = Some el'
      /\ Chat.scrollHeight el' = (Chat.scrollHeight el + h)%Z
      /\ Chat.clientHeight el' = Chat.clientHeight el
      /\ Chat.scrollTop el'
         = (Chat.scrollHeight el' - Chat.clientHeight el')%Z)
  /\ (exists el',
      Chat.bubbleListRef (Chat.appendReply h (Chat.mkView false (Some el)))
        = Some el'
      /\ Chat.scrollTop el' = Chat.scrollTop el)
  /\ (Chat.isAtBottom (Chat.handleScroll (Chat.mkView atBottom (Some el)))
        = true
      <-> (Chat.scrollHeight el - Chat.scrollTop el - Chat.clientHeight el
           < 50)%Z).
Proof.
  intros Hh Hc. split; [|split].
  - eexists. split; [reflexivity|]. cbn. repeat split. lia.
  - eexists. split; reflexivity.
  - cbn. apply Z.ltb_lt.
Qed.

Lemma auto_scroll_law_witness :
  let el := Chat.mkScrollBox 380 1000 600 in
  (0 <= 120)%Z
  /\ (0 <= Chat.clientHeight el <= Chat.scrollHeight el)%Z
  /\ (exists el',
      Chat.bubbleListRef (Chat.appendReply 120 (Chat.mkView true (Some el)))
        = Some el'
      /\ Chat.scrollHeight el' = (Chat.scrollHeight el + 120)%Z
      /\ Chat.clientHeight el' = Chat.clientHeight el
      /\ Chat.scrollTop el'
         = (Chat.scrollHeight el' - Chat.clientHeight el')%Z)
  /\ (exists el',
      Chat.bubbleListRef (Chat.appendReply 120 (Chat.mkView false (Some el)))
        = Some el'
      /\ Chat.scrollTop el' = Chat.scrollTop el)
  /\ (Chat.isAtBottom (Chat.handleScroll (Chat.mkView false (Some el)))
        = true
      <-> (Chat.scrollHeight el - Chat.scrollTop el - Chat.clientHeight el
           < 50)%Z).
Proof.
  cbv zeta. split; [lia | split; [simpl; lia |]].
  apply (auto_scroll_law (Chat.mkScrollBox 380 1000 600) 120 false);
    simpl; lia.
Defined.

(** ** The migration *)

Section StringOrder.

Lemma ltb_compare (a b : string) :
  String.ltb a b = true <-> String.compare a b = Lt.
Proof. unfold String.ltb. destruct (String.compare a b); easy. Qed.

Lemma leb_compare (a b : string) :
  String.leb a b = true <-> String.compare a b <> Gt.
Proof. unfold String.leb. destruct (String.compare a b); easy. Qed.

Lemma ltb_trans (a b c : string) :
  String.ltb a b = true -> String.ltb b c = true -> String.ltb a c = true.
Proof.
  rewrite !ltb_compare. change String.compare with String_as_OT.cmp.
  rewrite !String_as_OT.cmp_lt. apply String_as_OT.lt_trans.
Qed.

Lemma ltb_leb (a b : string) :
  String.ltb a b = true -> String.leb a b = true.
Proof. rewrite ltb_compare, leb_compare. congruence. Qed.

Lemma leb_refl (a : string) : String.leb a a = true.
Proof.
  apply leb_compare. change String.compare with String_as_OT.cmp.
  now rewrite (proj2 (String_as_OT.cmp_eq a a) eq_refl).
Qed.

Lemma ltb_false_leb (a b : string) :
  String.ltb a b = false -> String.leb b a = true.
Proof.
  intros H. apply leb_compare. rewrite String.compare_antisym.
  unfold String.ltb in H. destruct (String.compare a b); easy.
Qed.

Lemma leb_ltb_trans (a b c : string) :
  String.leb a b = true -> String.ltb b c = true -> String.ltb a c = true.
Proof.
  intros Hab Hbc. apply leb_compare in Hab.
  destruct (String.compare a b) eqn:E.
  - apply String.compare_eq_iff in E. now subst.
  - apply ltb_trans with b; [now apply ltb_compare | exact Hbc].
  - congruence.
Qed.

Lemma ltb_irrefl (a : string) : String.ltb a a = false.
Proof.
  unfold String.ltb. change String.compare with String_as_OT.cmp.
  now rewrite (proj2 (String_as_OT.cmp_eq a a) eq_refl).
Qed.

End StringOrder.

Section ReplyMapFacts.

Import Migration.

Lemma map_get_set (k k' : string) (v : Info.t) (m : ReplyMap) :
  map_get k' (map_set k v m)
  = if (k =? k')%string then Some v else map_get k' m.
Proof.
  induction m as [|[k1 v1] m IH]; simpl.
  - destruct (k =? k')%string; reflexivity.
  - destruct (String.eqb_spec k1 k) as [->|Hne]; simpl.
    + destruct (k =? k')%string; reflexivity.
    + rewrite IH. destruct (String.eqb_spec k k') as [->|Hne'].
      * apply String.eqb_neq in Hne. now rewrite Hne.
      * reflexivity.
Qed.

Lemma map_get_None (k : string) (m : ReplyMap) :
  map_get k m = None <-> ~ In k (map fst m).
Proof.
  induction m as [|[k1 v1] m IH]; simpl.
  - tauto.
  - destruct (String.eqb_spec k1 k) as [->|Hne].
    + split; [discriminate | tauto].
    + rewrite IH. tauto.
Qed.

Lemma map_get_Some_In (k : string) (v : Info.t) (m : ReplyMap) :
  map_get k m = Some v -> In (k, v) m.
Proof.
  induction m as [|[k1 v1] m IH]; simpl; [discriminate|].
  destruct (String.eqb_spec k1 k) as [->|Hne].
  - intros [= ->]. now left.
  - intros H. right. now apply IH.
Qed.

Lemma map_get_of_In (k : string) (v : Info.t) (m : ReplyMap) :
  NoDup (map fst m) -> In (k, v) m -> map_get k m = Some v.
Proof.
  induction m as [|[k1 v1] m IH]; simpl; [tauto|].
  intros Hnd [[= -> ->]|Hin].
  - now rewrite String.eqb_refl.
  - inversion Hnd as [|? ? Hnot Hnd']; subst.
    destruct (String.eqb_spec k1 k) as [->|Hne].
    + exfalso. apply Hnot. apply (in_map fst) in Hin. exact Hin.
    + now apply IH.
Qed.

Lemma map_keys_set (k : string) (v : Info.t) (m : ReplyMap) :
  map fst (map_set k v m)
  = match map_get k m with
    | Some _ => map fst m
    | None => map fst m ++ [k]
    end.
Proof.
  induction m as [|[k1 v1] m IH]; simpl.
  - reflexivity.
  - destruct (String.eqb_spec k1 k) as [->|Hne]; simpl.
    + reflexivity.
    + rewrite IH. now destruct (map_get k m).
Qed.

Lemma NoDup_snoc {A} (l : list A) (a : A) :
  NoDup l -> ~ In a l -> NoDup (l ++ [a]).
Proof.
  intros Hl Ha. induction Hl as [|x l Hx Hl IH]; simpl.
  - constructor; [tauto | constructor].
  - constructor.
    + rewrite in_app_iff. simpl. intros [?|[->|[]]]; [tauto|].
      apply Ha. now left.
    + apply IH. intros ?. apply Ha. now right.
Qed.

End ReplyMapFacts.

Section ScanFacts.

Import Migration.

Variable now : nat -> string.

Lemma numbered_cons (i : nat) (x : MessageRow) (rest : list MessageRow) :
  numbered i (x :: rest) = (i, x) :: numbered (S i) rest.
Proof. reflexivity. Qed.

Lemma group_snoc (k : string) (seen : list (nat * MessageRow))
    (im : nat * MessageRow) :
  group k (seen ++ [im])
  = group k seen ++ (if (key_of im =? k)%string then [im] else []).
Proof. unfold group. rewrite filter_app. reflexivity. Qed.

Lemma group_nil (k : string) (seen : list (nat * MessageRow)) :
  (forall im, In im seen -> key_of im <> k) -> group k seen = [].
Proof.
  intros H. unfold group. induction seen as [|x seen IH]; simpl.
  - reflexivity.
  - destruct (String.eqb_spec (key_of x) k) as [E|_].
    + exfalso. apply (H x); [now left | exact E].
    + apply IH. intros im Him. apply H. now right.
Qed.

Lemma scan_inv_nil : scan_inv now [] [] 0.
Proof.
  repeat split; simpl; try constructor; try tauto; try discriminate.
  intros (im & [] & _).
Qed.

(** One iteration of the loop keeps the invariant. *)
Lemma scan_inv_step (seen : list (nat * MessageRow)) (replyMap : ReplyMap)
    (n i : nat) (x : MessageRow) (d : MsgData) :
  scan_inv now seen replyMap n ->
  msg x = Parsed d ->
  scan_inv now (seen ++ [(i, x)]) (scan_step now i x d replyMap)
    (if hasReplyId x then n else S n).
Proof.
  intros (Hnd & Hkeys & Hsum & Hn & Hparsed) Hd.
  set (k0 := replyIdToUse x).
  set (ts0 := read_timestamp now i d).
  assert (Hts0 : timestamp_of now (i, x) = ts0)
    by (unfold timestamp_of; simpl; now rewrite Hd).
  assert (Hr0 : role_of (i, x) = read_role d)
    by (unfold role_of; simpl; now rewrite Hd).
  assert (Hn0 : name_of (i, x) = read_name d)
    by (unfold name_of; simpl; now rewrite Hd).
  assert (Hcount :
    (if hasReplyId x then n else S n)
    = List.length
        (filter (fun im => negb (hasReplyId (snd im))) (seen ++ [(i, x)]))).
  { rewrite filter_app, length_app. simpl.
    destruct (hasReplyId x); simpl; lia. }
  assert (Hparsed' :
    Forall (fun im => exists msgData, msg (snd im) = Parsed msgData)
      (seen ++ [(i, x)])).
  { apply Forall_app. split; [exact Hparsed|].
    constructor; [now exists d | constructor]. }
  assert (Hin_snoc : forall k,
    (exists im, In im (seen ++ [(i, x)]) /\ key_of im = k)
    <-> (exists im, In im seen /\ key_of im = k) \/ k = k0).
  { intros k. split.
    - intros (im & Him & Hk). apply in_app_iff in Him.
      destruct Him as [Him|[<-|[]]]; [left; now exists im|].
      right. now rewrite <- Hk.
    - intros [(im & Him & Hk)| ->].
      + exists im. split; [apply in_app_iff; now left | exact Hk].
      + exists (i, x). split; [apply in_app_iff; right; now left|].
        reflexivity. }
  unfold scan_step. cbv zeta. fold k0 ts0.
  destruct (map_get k0 replyMap) as [e|] eqn:Hget.
  - (* the key is present *)
    assert (Hk0 : In k0 (map fst replyMap)).
    { apply map_get_Some_In in Hget. apply (in_map fst) in Hget.
      exact Hget. }
    destruct (Hsum k0 e Hget)
      as (Hid & (first & rest & Hg & Hc & Hrun)
          & (pre & im & post & Hg' & Hf & Hro & Hna & Hpre & Hpost)).
    destruct (String.ltb (Info.finishedAt e) ts0) eqn:Hlt.
    + (* finishedAt, role and name are replaced *)
      split; [|split; [|split; [|split]]]; try assumption.
      * rewrite map_keys_set, Hget. exact Hnd.
      * intros k. rewrite map_keys_set, Hget, Hin_snoc, Hkeys.
        split; [tauto|]. intros [H| ->]; [exact H|].
        now apply Hkeys.
      * intros k e'. rewrite map_get_set, group_snoc.
        change (key_of (i, x)) with k0.
        destruct (String.eqb_spec k0 k) as [<-|Hne].
        -- intros [= <-]. split; [exact Hid|]. split.
           ++ exists first, (rest ++ [(i, x)]). rewrite Hg. simpl.
              repeat split; assumption.
           ++ exists (pre ++ im :: post), (i, x), [].
              rewrite Hg', Hts0, Hr0, Hn0. simpl.
              repeat split; try reflexivity; [|tauto].
              intros y Hy. apply in_app_iff in Hy.
              destruct Hy as [Hy|[<-|Hy]].
              ** apply ltb_trans with (timestamp_of now im);
                   [now apply Hpre | now rewrite <- Hf].
              ** now rewrite <- Hf.
              ** apply leb_ltb_trans with (timestamp_of now im);
                   [now apply Hpost | now rewrite <- Hf].
        -- intros He'. rewrite app_nil_r. now apply Hsum.
    + (* the record is left as it is *)
      split; [|split; [|split; [|split]]]; try assumption.
      * intros k. rewrite Hin_snoc, Hkeys.
        split; [tauto|]. intros [H| ->]; [exact H|].
        now apply Hkeys.
      * intros k e'. rewrite group_snoc.
        change (key_of (i, x)) with k0.
        destruct (String.eqb_spec k0 k) as [<-|Hne].
        -- rewrite Hget. intros [= <-]. split; [exact Hid|]. split.
           ++ exists first, (rest ++ [(i, x)]). rewrite Hg. simpl.
              repeat split; assumption.
           ++ exists pre, im, (post ++ [(i, x)]).
              rewrite Hg', <- app_assoc. simpl.
              repeat split; try assumption.
              intros y Hy. apply in_app_iff in Hy.
              destruct Hy as [Hy|[<-|[]]]; [now apply Hpost|].
              rewrite Hts0, <- Hf. now apply ltb_false_leb.
        -- intros He'. rewrite app_nil_r. now apply Hsum.
  - (* first sight of the key *)
    assert (Hk0 : ~ In k0 (map fst replyMap)) by now apply map_get_None.
    assert (Hg0 : group k0 seen = []).
    { apply group_nil. intros im Him Hk. apply Hk0, Hkeys. now exists im. }
    split; [|split; [|split; [|split]]]; try assumption.
    + rewrite map_keys_set, Hget. now apply NoDup_snoc.
    + intros k. rewrite map_keys_set, Hget, Hin_snoc, in_app_iff, Hkeys.
      simpl. intuition congruence.
    + intros k e'. rewrite map_get_set, group_snoc.
      change (key_of (i, x)) with k0.
      destruct (String.eqb_spec k0 k) as [<-|Hne].
      * intros [= <-]. rewrite Hg0. simpl. split; [reflexivity|]. split.
        -- exists (i, x), []. rewrite Hts0. repeat split.
        -- exists [], (i, x), []. rewrite Hts0, Hr0, Hn0. simpl.
           repeat split; tauto.
      * intros He'. rewrite app_nil_r. now apply Hsum.
Qed.

(** The whole loop: from the invariant before to the invariant after. *)
Lemma scan_inv_loop (rest : list MessageRow) :
  forall (i : nat) (seen : list (nat * MessageRow)) (replyMap : ReplyMap)
         (n : nat) (replyMap' : ReplyMap) (n' : nat),
    scan_inv now seen replyMap n ->
    scan now i rest replyMap n = inr (replyMap', n') ->
    scan_inv now (seen ++ numbered i rest) replyMap' n'.
Proof.
  induction rest as [|x rest IH]; intros i seen replyMap n replyMap' n' Hinv.
  - simpl. intros [= <- <-]. unfold numbered. simpl.
    now rewrite app_nil_r.
  - simpl. destruct (msg x) as [d|] eqn:Hd; [|discriminate].
    intros Hscan. rewrite numbered_cons.
    change ((i, x) :: numbered (S i) rest)
      with ([(i, x)] ++ numbered (S i) rest).
    rewrite app_assoc. eapply IH; [|exact Hscan].
    now apply scan_inv_step.
Qed.

Lemma scan_correct (msgs : list MessageRow) (replyMap : ReplyMap) (n : nat) :
  scan now 0 msgs [] 0 = inr (replyMap, n) ->
  scan_inv now (numbered 0 msgs) replyMap n.
Proof.
  intros H. apply (scan_inv_loop msgs 0 [] [] 0 replyMap n scan_inv_nil H).
Qed.

(** The loop fails only on a payload it cannot read. *)
Lemma scan_total (msgs : list MessageRow) :
  forall (i : nat) (replyMap : ReplyMap) (n : nat),
    Forall (fun m => exists d, msg m = Parsed d) msgs ->
    exists replyMap' n', scan now i msgs replyMap n = inr (replyMap', n').
Proof.
  induction msgs as [|x msgs IH]; intros i replyMap n Hall; simpl.
  - now exists replyMap, n.
  - inversion Hall as [|? ? [d Hd] Hall']; subst. rewrite Hd.
    now apply IH.
Qed.

Lemma scan_error (msgs : list MessageRow) :
  forall i replyMap n e,
    scan now i msgs replyMap n = inl e -> is_table_exists e = false.
Proof.
  induction msgs as [|x msgs IH]; intros i replyMap n e; simpl.
  - discriminate.
  - destruct (msg x); [apply IH | now intros [= <-]].
Qed.

(** The record of the first key met stays at the head of the map. *)
Lemma scan_keeps_head (msgs : list MessageRow) :
  forall i k v replyMap n replyMap' n',
    scan now i msgs ((k, v) :: replyMap) n = inr (replyMap', n') ->
    exists v' tl, replyMap' = (k, v') :: tl.
Proof.
  induction msgs as [|x msgs IH]; intros i k v replyMap n replyMap' n';
    simpl.
  - intros [= <- _]. now exists v, replyMap.
  - destruct (msg x) as [d|]; [|discriminate].
    unfold scan_step. cbv zeta.
    destruct (map_get _ _) as [existing|].
    + destruct (String.ltb _ _); [|apply IH].
      simpl. destruct (String.eqb_spec k (replyIdToUse x)) as [<-|_];
        apply IH.
    + simpl. destruct (String.eqb_spec k (replyIdToUse x)) as [<-|_];
        apply IH.
Qed.

Lemma scan_head (x : MessageRow) (msgs : list MessageRow)
    (replyMap : ReplyMap) (n : nat) :
  scan now 0 (x :: msgs) [] 0 = inr (replyMap, n) ->
  exists e tl,
    replyMap = (replyIdToUse x, e) :: tl
    /\ Info.replyId e = replyIdToUse x.
Proof.
  intros H. pose proof (scan_correct _ _ _ H) as (_ & _ & Hsum & _).
  simpl in H. destruct (msg x) as [d|]; [|discriminate].
  unfold scan_step in H. simpl in H.
  apply scan_keeps_head in H. destruct H as (e & tl & ->).
  exists e, tl. split; [reflexivity|].
  apply (Hsum (replyIdToUse x) e). simpl. now rewrite String.eqb_refl.
Qed.

End ScanFacts.

Section RunnerFacts.

Import Migration.

Lemma bind_ok {A B} (c : M A) (k : A -> M B) (db db' : Db) (b : B) :
  bind c k db = (inr b, db') ->
  exists a db1, c db = (inr a, db1) /\ k a db1 = (inr b, db').
Proof.
  unfold bind. destruct (c db) as [[e|a] db1]; [discriminate|]. eauto.
Qed.

Lemma bind_err {A B} (c : M A) (k : A -> M B) (db db' : Db) (e : Error) :
  bind c k db = (inl e, db') ->
  c db = (inl e, db')
  \/ exists a db1, c db = (inr a, db1) /\ k a db1 = (inl e, db').
Proof.
  unfold bind. destruct (c db) as [[e1|a] db1]; intros H;
    [injection H as -> ->; now left | right; eauto].
Qed.

Lemma bind_run {A B} (c : M A) (k : A -> M B) (db db1 : Db) (a : A) :
  c db = (inr a, db1) -> bind c k db = k a db1.
Proof. unfold bind. now intros ->. Qed.

Lemma insert_reply_ok (reply : Info.t) (db db' : Db) :
  insert_reply reply db = (inr tt, db') ->
  same_messages db db'
  /\ reply_table db <> None
  /\ reply_table db' <> None
  /\ reply_rows db' = reply_rows db ++ [row_of reply].
Proof.
  unfold insert_reply, bind, get, put, throw, reply_rows, same_messages.
  destruct (reply_table db) as [t|]; [|discriminate].
  destruct (existsb _ (rows t)); [discriminate|].
  intros [= <-]. simpl. repeat split; discriminate.
Qed.

Lemma insert_replies_ok (replies : list Info.t) :
  forall db db',
    insert_replies replies db = (inr tt, db') ->
    same_messages db db'
    /\ (reply_table db <> None -> reply_table db' <> None)
    /\ reply_rows db' = reply_rows db ++ map row_of replies.
Proof.
  induction replies as [|r replies IH]; intros db db'; simpl.
  - intros [= <-]. unfold same_messages. rewrite app_nil_r. tauto.
  - intros H. apply bind_ok in H. destruct H as ([] & db1 & H1 & H2).
    apply insert_reply_ok in H1. destruct H1 as (Hs1 & _ & Hsome & Hrows1).
    apply IH in H2. destruct H2 as (Hs2 & Hsome2 & Hrows2).
    unfold same_messages in *. rewrite Hrows2, Hrows1, <- app_assoc.
    simpl. intuition congruence.
Qed.

Lemma bind_fail {A B} (c : M A) (k : A -> M B) (db db1 : Db) (e : Error) :
  c db = (inl e, db1) -> bind c k db = (inl e, db1).
Proof. unfold bind. now intros ->. Qed.

(** The insert of a key that is already in the table fails. *)
Lemma insert_reply_duplicate (reply : Info.t) (db : Db) :
  In (Info.replyId reply) (map ReplyRow.replyId (reply_rows db)) ->
  insert_reply reply db
  = (inl (UniqueConstraintFailed (Info.replyId reply)), db).
Proof.
  unfold reply_rows. intros Hin.
  unfold insert_reply, bind, get.
  destruct (reply_table db) as [t|]; [|destruct Hin].
  assert (E : existsb
                (fun r => (ReplyRow.replyId r =? Info.replyId reply)%string)
                (rows t) = true).
  { apply existsb_exists. apply in_map_iff in Hin.
    destruct Hin as (r & Hr & Hin). exists r. split; [exact Hin|].
    now apply String.eqb_eq. }
  rewrite E. reflexivity.
Qed.

Lemma insert_replies_duplicate (reply : Info.t) (rest : list Info.t)
    (db : Db) :
  In (Info.replyId reply) (map ReplyRow.replyId (reply_rows db)) ->
  insert_replies (reply :: rest) db
  = (inl (UniqueConstraintFailed (Info.replyId reply)), db).
Proof.
  intros Hin. cbn [insert_replies].
  apply bind_fail. now apply insert_reply_duplicate.
Qed.

Lemma In_insert_by_id (m x : MessageRow) (l : list MessageRow) :
  In x (insert_by_id m l) <-> x = m \/ In x l.
Proof.
  induction l as [|y l IH]; simpl.
  - intuition congruence.
  - destruct (String.leb (id m) (id y)); simpl; [intuition congruence|].
    rewrite IH. intuition congruence.
Qed.

Lemma In_order_by_id (x : MessageRow) (l : list MessageRow) :
  In x (order_by_id l) <-> In x l.
Proof.
  unfold order_by_id. induction l as [|y l IH]; simpl; [tauto|].
  rewrite In_insert_by_id, IH. intuition congruence.
Qed.

Lemma In_numbered (x : MessageRow) (l : list MessageRow) (i : nat) :
  In x l <-> exists j, In (j, x) (numbered i l).
Proof.
  unfold numbered. revert i. induction l as [|y l IH]; intros i; simpl.
  - split; [tauto | intros (j & [])].
  - split.
    + intros [->|H]; [exists i; now left|].
      apply (IH (S i)) in H. destruct H as (j & H). exists j. now right.
    + intros (j & [[= _ ->]|H]); [now left|].
      right. apply (IH (S i)). now exists j.
Qed.

Lemma null_or_empty_hasReplyId (m : MessageRow) :
  is_null_or_empty (replyId m) = negb (hasReplyId m).
Proof.
  unfold is_null_or_empty, hasReplyId, JS.nonempty.
  destruct (replyId m) as [r|]; [|reflexivity].
  destruct (r =? "")%string; reflexivity.
Qed.

Lemma backfilled_replyId (m : MessageRow) :
  replyId (backfilled m) = Some (replyIdToUse m).
Proof.
  unfold backfilled, replyIdToUse. rewrite null_or_empty_hasReplyId.
  destruct (hasReplyId m) eqn:E; simpl; [|reflexivity].
  unfold hasReplyId in E. destruct (replyId m); [reflexivity|discriminate].
Qed.

Lemma createTable_reply_ifNotExists (db : Db) :
  exists db1,
    createTable_reply true db = (inr tt, db1)
    /\ same_messages db db1
    /\ reply_rows db1 = reply_rows db
    /\ reply_table db1 <> None
    /\ (reply_table db <> None -> db1 = db).
Proof.
  unfold createTable_reply, bind, get, put, ret, same_messages, reply_rows.
  destruct (reply_table db) as [t|] eqn:E; eexists; (split; [reflexivity|]).
  - rewrite E. repeat split; congruence.
  - simpl. repeat split; congruence.
Qed.

Lemma createForeignKey_reply_ok (unique_fk_names : bool)
    (fk : TableForeignKey) (db db' : Db) :
  createForeignKey unique_fk_names "reply_table" fk db = (inr tt, db') ->
  same_messages db db'
  /\ reply_rows db' = reply_rows db
  /\ reply_table db' <> None.
Proof.
  unfold createForeignKey, bind, get, put, throw, same_messages, reply_rows.
  simpl. destruct (reply_table db) as [t|]; [|discriminate].
  destruct (add_fk unique_fk_names fk (reply_foreignKeys t));
    [discriminate|].
  intros [= <-]. simpl. repeat split; congruence.
Qed.

Lemma createForeignKey_message_ok (unique_fk_names : bool)
    (fk : TableForeignKey) (db db' : Db) :
  createForeignKey unique_fk_names "message_table" fk db = (inr tt, db') ->
  message_table db' = message_table db
  /\ replyId_isNullable db' = replyId_isNullable db
  /\ message_foreignKeys db' = message_foreignKeys db ++ [fk]
  /\ reply_table db' = reply_table db.
Proof.
  unfold createForeignKey, bind, get, put, throw. simpl.
  unfold add_fk.
  destruct (unique_fk_names && has_fk_named (fk_name fk)
                                 (message_foreignKeys db));
    [discriminate|].
  intros [= <-]. simpl. repeat split.
Qed.

Lemma update_replyId_from_id_run (db : Db) :
  update_replyId_from_id db
  = (inr tt,
     {| message_table := map backfilled (message_table db);
        replyId_isNullable := replyId_isNullable db;
        message_foreignKeys := message_foreignKeys db;
        reply_table := reply_table db |}).
Proof. reflexivity. Qed.

Lemma count_null_replyId_run (db : Db) :
  count_null_replyId db
  = (inr (List.length
            (filter (fun m => is_null_or_empty (replyId m))
               (message_table db))),
     db).
Proof. reflexivity. Qed.

Lemma filter_length_0 {A} (p : A -> bool) (l : list A) :
  List.length (filter p l) = 0 -> forall x, In x l -> p x = false.
Proof.
  induction l as [|y l IH]; simpl; [tauto|].
  destruct (p y) eqn:E; [discriminate|].
  intros H x [<-|Hx]; [exact E | now apply IH].
Qed.

Lemma backfilled_fixed (m : MessageRow) :
  hasReplyId m = true -> backfilled m = m.
Proof.
  intros H. unfold backfilled. rewrite null_or_empty_hasReplyId, H.
  reflexivity.
Qed.

Lemma insert_reply_error (reply : Info.t) (db st : Db) (e : Error) :
  insert_reply reply db = (inl e, st) -> is_table_exists e = false.
Proof.
  unfold insert_reply, bind, get, put, throw.
  destruct (reply_table db) as [t|]; [|now intros [= <- _]].
  destruct (existsb _ (rows t)); [now intros [= <- _] | discriminate].
Qed.

Lemma insert_replies_error (replies : list Info.t) :
  forall db st e,
    insert_replies replies db = (inl e, st) -> is_table_exists e = false.
Proof.
  induction replies as [|r replies IH]; intros db st e; simpl.
  - discriminate.
  - intros H. apply bind_err in H. destruct H as [H|([] & db1 & _ & H)].
    + now apply insert_reply_error in H.
    + now apply IH in H.
Qed.

Lemma insert_reply_fks (reply : Info.t) (db db' : Db) :
  insert_reply reply db = (inr tt, db') -> reply_fks db' = reply_fks db.
Proof.
  unfold insert_reply, bind, get, put, throw, reply_fks.
  destruct (reply_table db) as [t|]; [|discriminate].
  destruct (existsb _ (rows t)); [discriminate|].
  now intros [= <-].
Qed.

Lemma insert_replies_fks (replies : list Info.t) :
  forall db db',
    insert_replies replies db = (inr tt, db') ->
    reply_fks db' = reply_fks db.
Proof.
  induction replies as [|r replies IH]; intros db db'; simpl.
  - now intros [= <-].
  - intros H. apply bind_ok in H. destruct H as ([] & db1 & H1 & H2).
    apply insert_reply_fks in H1. apply IH in H2. congruence.
Qed.

Lemma createForeignKey_error (unique_fk_names : bool) (table : string)
    (fk : TableForeignKey) (db st : Db) (e : Error) :
  createForeignKey unique_fk_names table fk db = (inl e, st) ->
  is_table_exists e = false.
Proof.
  unfold createForeignKey, bind, get, put, throw, add_fk.
  destruct (table =? "reply_table")%string.
  - destruct (reply_table db) as [t|]; [|now intros [= <- _]].
    destruct (unique_fk_names && _); [now intros [= <- _] | discriminate].
  - destruct (table =? "message_table")%string; [|now intros [= <- _]].
    destruct (unique_fk_names && _); [now intros [= <- _] | discriminate].
Qed.

Lemma createForeignKey_reply_fks (unique_fk_names : bool)
    (fk : TableForeignKey) (db db' : Db) :
  createForeignKey unique_fk_names "reply_table" fk db = (inr tt, db') ->
  reply_fks db' = reply_fks db ++ [fk].
Proof.
  unfold createForeignKey, bind, get, put, throw, add_fk, reply_fks.
  simpl. destruct (reply_table db) as [t|]; [|discriminate].
  destruct (unique_fk_names && _); [discriminate|].
  now intros [= <-].
Qed.

(** A database that accepts duplicate constraint names adds the key. *)
Lemma createForeignKey_reply_run (fk : TableForeignKey) (db : Db) :
  reply_table db <> None ->
  exists db',
    createForeignKey false "reply_table" fk db = (inr tt, db')
    /\ message_table db' = message_table db
    /\ reply_rows db' = reply_rows db.
Proof.
  intros Hs. unfold createForeignKey, bind, get, put, throw, add_fk,
    reply_rows.
  simpl. destruct (reply_table db) as [t|]; [|congruence].
  eexists. split; [reflexivity|]. split; reflexivity.
Qed.

(** A database that rejects duplicate constraint names refuses it. *)
Lemma createForeignKey_reply_duplicate (fk : TableForeignKey) (db : Db) :
  In fk (reply_fks db) ->
  createForeignKey true "reply_table" fk db
  = (inl (DuplicateConstraint (fk_name fk)), db).
Proof.
  intros Hin. unfold createForeignKey, bind, get, put, throw, add_fk.
  unfold reply_fks in Hin. simpl.
  destruct (reply_table db) as [t|]; [|destruct Hin].
  assert (E : has_fk_named (fk_name fk) (reply_foreignKeys t) = true).
  { apply existsb_exists. exists fk. split; [exact Hin|].
    apply String.eqb_refl. }
  rewrite E. reflexivity.
Qed.

Lemma select_messages_run (db : Db) :
  select_messages db = (inr (order_by_id (message_table db)), db).
Proof. reflexivity. Qed.

Lemma lift_run {A} (a : A) (db : Db) : lift (inr a) db = (inr a, db).
Proof. reflexivity. Qed.

Lemma insert_by_id_perm (m : MessageRow) (l : list MessageRow) :
  Permutation (m :: l) (insert_by_id m l).
Proof.
  induction l as [|x l IH]; simpl.
  - apply Permutation_refl.
  - destruct (String.leb (id m) (id x)); [apply Permutation_refl|].
    eapply perm_trans; [apply perm_swap|]. now apply perm_skip.
Qed.

Lemma order_by_id_perm (l : list MessageRow) :
  Permutation l (order_by_id l).
Proof.
  unfold order_by_id. induction l as [|x l IH]; simpl.
  - apply perm_nil.
  - eapply perm_trans; [apply perm_skip, IH | apply insert_by_id_perm].
Qed.

Lemma insert_by_id_hd (x m : MessageRow) (l : list MessageRow) :
  id_le x m -> HdRel id_le x l -> HdRel id_le x (insert_by_id m l).
Proof.
  intros Hxm Hl. destruct l as [|y l]; simpl.
  - now constructor.
  - destruct (String.leb (id m) (id y)); constructor; [exact Hxm|].
    now inversion Hl.
Qed.

Lemma insert_by_id_sorted (m : MessageRow) (l : list MessageRow) :
  Sorted id_le l -> Sorted id_le (insert_by_id m l).
Proof.
  induction 1 as [|x l Hs IH Hhd]; simpl.
  - repeat constructor.
  - destruct (String.leb (id m) (id x)) eqn:E.
    + constructor; [now constructor | now constructor].
    + constructor; [exact IH|]. apply insert_by_id_hd; [|exact Hhd].
      unfold id_le. destruct (String.leb_total (id x) (id m)) as [H|H];
        [exact H | congruence].
Qed.

(** The scan order is the ascending order of the ids. *)
Lemma order_by_id_sorted (l : list MessageRow) :
  Sorted id_le (order_by_id l).
Proof.
  unfold order_by_id. induction l as [|x l IH]; simpl.
  - constructor.
  - now apply insert_by_id_sorted.
Qed.

Lemma insert_replies_succeed (replies : list Info.t) :
  forall db,
    reply_table db <> None ->
    NoDup (map Info.replyId replies) ->
    (forall e, In e replies ->
       ~ In (Info.replyId e) (map ReplyRow.replyId (reply_rows db))) ->
    exists db', insert_replies replies db = (inr tt, db').
Proof.
  induction replies as [|r replies IH]; intros db Hsome Hnd Hfresh; simpl.
  - now exists db.
  - inversion Hnd as [|? ? Hr Hnd']; subst.
    assert (H1 : exists db1, insert_reply r db = (inr tt, db1)).
    { unfold insert_reply, bind, get, put, throw.
      pose proof (Hfresh r (or_introl eq_refl)) as Hnew.
      unfold reply_rows in Hnew.
      destruct (reply_table db) as [t|]; [|congruence].
      destruct (existsb _ (rows t)) eqn:E; [|now eexists].
      exfalso. apply Hnew. apply existsb_exists in E.
      destruct E as (row & Hin & Heq). apply String.eqb_eq in Heq.
      rewrite <- Heq. now apply in_map. }
    destruct H1 as (db1 & H1). rewrite (bind_run _ _ _ _ _ H1).
    pose proof (insert_reply_ok _ _ _ H1) as (_ & _ & Hsome1 & Hrows1).
    apply IH; [exact Hsome1 | exact Hnd'|].
    intros e He. rewrite Hrows1, map_app, in_app_iff. simpl.
    intros [Hold|[Heq|[]]].
    + apply (Hfresh e); [now right | exact Hold].
    + apply Hr. rewrite Heq. now apply in_map.
Qed.

Lemma filter_none {A} (p : A -> bool) (l : list A) :
  (forall x, In x l -> p x = false) -> filter p l = [].
Proof.
  induction l as [|y l IH]; intros H; simpl; [reflexivity|].
  rewrite (H y) by now left. apply IH. intros x Hx. apply H. now right.
Qed.

End RunnerFacts.

Section UpFacts.

Import Migration.

Variable unique_fk_names : bool.
Variable now : nat -> string.

(** What steps 1 and 2 have done when they succeed. *)
Lemma up_backfill_ok (db db2 : Db) :
  up_backfill unique_fk_names now db = (inr tt, db2) ->
  exists replyMap n,
    scan now 0 (order_by_id (message_table db)) [] 0 = inr (replyMap, n)
    /\ reply_rows db2 = reply_rows db ++ map row_of (map_values replyMap)
    /\ message_table db2 = map backfilled (message_table db)
    /\ replyId_isNullable db2 = replyId_isNullable db
    /\ message_foreignKeys db2 = message_foreignKeys db
    /\ reply_table db2 <> None.
Proof.
  unfold up_backfill. intros H.
  destruct (createTable_reply_ifNotExists db)
    as (db1 & H1 & (Hm1 & Hn1 & Hf1) & Hr1 & Hs1 & _).
  rewrite (bind_run _ _ _ _ _ H1) in H.
  apply bind_ok in H. destruct H as ([] & db1' & H2 & H).
  apply createForeignKey_reply_ok in H2.
  destruct H2 as ((Hm2 & Hn2 & Hf2) & Hr2 & Hs2).
  unfold select_messages in H.
  apply bind_ok in H. destruct H as (msgs & db3 & H3 & H).
  cbv [bind get ret] in H3. injection H3 as <- <-.
  apply bind_ok in H. destruct H as ([replyMap n] & db4 & H4 & H).
  unfold lift in H4.
  destruct (scan now 0 (order_by_id (message_table db1')) [] 0)
    as [e|[replyMap0 n0]] eqn:Hscan; [discriminate|].
  cbv [ret] in H4. injection H4 as -> -> <-.
  cbn [fst snd] in H.
  apply bind_ok in H. destruct H as ([] & db5 & H5 & H).
  apply insert_replies_ok in H5.
  destruct H5 as ((Hm5 & Hn5 & Hf5) & Hs5 & Hr5).
  rewrite Hm2, Hm1 in Hscan.
  exists replyMap, n. split; [exact Hscan|].
  assert (Hrows : reply_rows db5
                  = reply_rows db ++ map row_of (map_values replyMap))
    by (rewrite Hr5, Hr2, Hr1; reflexivity).
  destruct (0 <? n)%nat eqn:Hn.
  - rewrite update_replyId_from_id_run in H. injection H as <-.
    simpl. unfold reply_rows in *. simpl.
    repeat split; try congruence. now apply Hs5.
  - cbv [ret] in H. injection H as <-.
    repeat split; try congruence; [|now apply Hs5].
    rewrite Hm5, Hm2, Hm1. symmetry.
    rewrite <- (map_id (message_table db)) at 2.
    apply map_ext_in. intros m Hm. apply backfilled_fixed.
    apply Nat.ltb_ge in Hn. assert (n = 0) as -> by lia.
    apply scan_correct in Hscan.
    destruct Hscan as (_ & _ & _ & Hcount & _).
    apply In_order_by_id in Hm.
    apply (In_numbered m _ 0) in Hm. destruct Hm as (j & Hj).
    symmetry in Hcount.
    pose proof (filter_length_0 _ _ Hcount (j, m) Hj) as Hf.
    simpl in Hf. now destruct (hasReplyId m).
Qed.

(** What a successful [up] has done. *)
Lemma up_ok (db db' : Db) :
  up unique_fk_names now db = (inr tt, db') ->
  exists db2,
    up_backfill unique_fk_names now db = (inr tt, db2)
    /\ (forall m, In m (message_table db2) ->
          is_null_or_empty (replyId m) = false)
    /\ message_table db' = message_table db2
    /\ reply_table db' = reply_table db2
    /\ replyId_isNullable db' = false
    /\ message_foreignKeys db'
       = message_foreignKeys db2 ++ [FK_message_reply].
Proof.
  unfold up. intros H.
  apply bind_ok in H. destruct H as ([] & db2 & H1 & H).
  apply bind_ok in H. destruct H as ([] & db3 & H2 & H).
  unfold up_verify in H2. apply bind_ok in H2.
  destruct H2 as (count & db2' & Hc & H2).
  rewrite count_null_replyId_run in Hc. injection Hc as <- <-.
  destruct (0 <? _)%nat eqn:Hpos in H2; [discriminate|].
  cbv [ret] in H2. injection H2 as <-.
  apply Nat.ltb_ge in Hpos.
  unfold up_constrain in H. apply bind_ok in H.
  destruct H as ([] & db4 & H3 & H4).
  apply createForeignKey_message_ok in H4.
  destruct H4 as (Hm4 & Hn4 & Hf4 & Hr4).
  unfold changeColumn_replyId, bind, get, put, throw in H3.
  destruct (negb false && _) in H3; [discriminate|].
  injection H3 as <-. simpl in *.
  exists db2. repeat split; try assumption.
  intros m Hm.
  apply (filter_length_0 (fun m => is_null_or_empty (replyId m))
           (message_table db2)); [lia | exact Hm].
Qed.

(** The inserted rows carry the keys of [replyMap], in its order. *)
Lemma inserted_keys (seen : list (nat * MessageRow)) (replyMap : ReplyMap)
    (n : nat) :
  scan_inv now seen replyMap n ->
  map ReplyRow.replyId (map row_of (map_values replyMap))
  = map fst replyMap.
Proof.
  intros (Hnd & _ & Hsum & _). unfold map_values. rewrite !map_map.
  apply map_ext_in. intros [k e] Hin. simpl.
  apply (Hsum k e). now apply map_get_of_In.
Qed.

Lemma inserted_row (seen : list (nat * MessageRow)) (replyMap : ReplyMap)
    (n : nat) (row : ReplyRow.t) :
  scan_inv now seen replyMap n ->
  In row (map row_of (map_values replyMap)) ->
  exists e,
    row = row_of e
    /\ summarizes now e (ReplyRow.replyId row)
         (group (ReplyRow.replyId row) seen).
Proof.
  intros (Hnd & _ & Hsum & _) Hin. unfold map_values in Hin.
  rewrite map_map in Hin. apply in_map_iff in Hin.
  destruct Hin as ([k e] & <- & Hin). simpl. exists e.
  split; [reflexivity|].
  pose proof (Hsum k e (map_get_of_In _ _ _ Hnd Hin)) as Hs.
  destruct Hs as (Hid & Hrest). rewrite Hid.
  split; [exact Hid | exact Hrest].
Qed.

(** Step 4 never raises the error of the integrity check. *)
Lemma up_constrain_error (db st : Db) (e : Error) :
  up_constrain unique_fk_names db = (inl e, st) ->
  e = NotNullConstraintFailed
  \/ e = DuplicateConstraint (fk_name FK_message_reply).
Proof.
  unfold up_constrain. intros H. apply bind_err in H.
  destruct H as [H|([] & db1 & _ & H)].
  - left. unfold changeColumn_replyId, bind, get, put, throw in H.
    destruct (negb false && _) in H; [|discriminate]. now injection H.
  - right. unfold createForeignKey, bind, get, put, throw in H.
    simpl in H. unfold add_fk in H.
    destruct (unique_fk_names && _) in H; [|discriminate].
    now injection H.
Qed.

(** From a successful backfill, [up] continues with the integrity check
    and, past it, with step 4. *)
Lemma up_after_backfill (db db2 : Db) :
  up_backfill unique_fk_names now db = (inr tt, db2) ->
  up unique_fk_names now db
  = let count :=
      List.length
        (filter (fun m => is_null_or_empty (replyId m))
           (message_table db2)) in
    if (0 <? count)%nat then (inl (MigrationFailed count), db2)
    else up_constrain unique_fk_names db2.
Proof.
  intros H. unfold up. rewrite (bind_run _ _ _ _ _ H).
  unfold up_verify. unfold bind at 1 2.
  rewrite count_null_replyId_run. cbv zeta.
  destruct (0 <? _)%nat; reflexivity.
Qed.

Lemma up_backfill_error (db st : Db) (e : Error) :
  up_backfill unique_fk_names now db = (inl e, st) ->
  is_table_exists e = false.
Proof.
  unfold up_backfill. intros H.
  destruct (createTable_reply_ifNotExists db) as (db1 & H1 & _).
  rewrite (bind_run _ _ _ _ _ H1) in H.
  apply bind_err in H. destruct H as [H|([] & db2 & _ & H)];
    [now apply createForeignKey_error in H|].
  apply bind_err in H. destruct H as [H|(msgs & db3 & _ & H)];
    [discriminate|].
  apply bind_err in H. destruct H as [H|(scanned & db4 & _ & H)].
  { unfold lift in H. destruct (scan _ _ _ _ _) as [e'|r] eqn:E;
      [|discriminate].
    injection H as <- _. now apply scan_error in E. }
  apply bind_err in H. destruct H as [H|([] & db5 & _ & H)];
    [now apply insert_replies_error in H|].
  destruct (0 <? snd scanned)%nat; discriminate.
Qed.

(** No run of [up] stops on a table that exists already. *)
Lemma up_error (db st : Db) (e : Error) :
  up unique_fk_names now db = (inl e, st) -> is_table_exists e = false.
Proof.
  unfold up. intros H.
  apply bind_err in H. destruct H as [H|([] & db2 & _ & H)];
    [now apply up_backfill_error in H|].
  apply bind_err in H. destruct H as [H|([] & db3 & _ & H)].
  - unfold up_verify, bind in H. rewrite count_null_replyId_run in H.
    destruct (0 <? _)%nat in H; [|discriminate]. now injection H as <- _.
  - apply up_constrain_error in H. destruct H as [-> | ->]; reflexivity.
Qed.

Lemma up_backfill_fks (db db2 : Db) :
  up_backfill unique_fk_names now db = (inr tt, db2) ->
  reply_fks db2 = reply_fks db ++ [FK_reply_run].
Proof.
  unfold up_backfill. intros H.
  destruct (createTable_reply_ifNotExists db)
    as (db1 & H1 & _ & _ & Hsome & _).
  assert (Hfks1 : reply_fks db1 = reply_fks db).
  { revert H1. unfold createTable_reply, bind, get, put, ret, reply_fks.
    destruct (reply_table db) eqn:E; intros [= <-]; simpl;
      [now rewrite E | reflexivity]. }
  rewrite (bind_run _ _ _ _ _ H1) in H.
  apply bind_ok in H. destruct H as ([] & db1' & H2 & H).
  apply createForeignKey_reply_fks in H2.
  apply bind_ok in H. destruct H as (msgs & db3 & H3 & H).
  cbv [select_messages bind get ret] in H3. injection H3 as <- <-.
  apply bind_ok in H. destruct H as (scanned & db4 & H4 & H).
  unfold lift in H4. destruct (scan _ _ _ _ _) as [e|r]; [discriminate|].
  cbv [ret] in H4. injection H4 as <- <-.
  apply bind_ok in H. destruct H as ([] & db5 & H5 & H).
  apply insert_replies_fks in H5.
  destruct (0 <? snd r)%nat.
  - rewrite update_replyId_from_id_run in H. injection H as <-.
    unfold reply_fks in *. simpl. congruence.
  - cbv [ret] in H. injection H as <-. congruence.
Qed.

(** On a schema where [reply_table] does not exist yet, [up] completes as
    soon as every payload can be read, no grouping key is empty, and the
    name FK_message_reply is free on [message_table] (or duplicate names
    are accepted). *)
Lemma up_completes (db : Db) :
  reply_table db = None ->
  Forall (fun m => exists d, msg m = Parsed d) (message_table db) ->
  (forall m, In m (message_table db) -> replyIdToUse m <> "") ->
  unique_fk_names
    && has_fk_named "FK_message_reply" (message_foreignKeys db) = false ->
  exists db', up unique_fk_names now db = (inr tt, db').
Proof.
  intros Hfresh Hparsed Hkeys Hname.
  (* steps 1 and 2 *)
  assert (Hb : exists db2, up_backfill unique_fk_names now db = (inr tt, db2)).
  { unfold up_backfill.
    assert (H1 : createTable_reply true db
                 = (inr tt,
                    {| message_table := message_table db;
                       replyId_isNullable := replyId_isNullable db;
                       message_foreignKeys := message_foreignKeys db;
                       reply_table :=
                         Some {| rows := []; reply_foreignKeys := [] |} |}))
      by (unfold createTable_reply, bind, get, put; now rewrite Hfresh).
    rewrite (bind_run _ _ _ _ _ H1).
    set (db1 := {| message_table := message_table db;
                   replyId_isNullable := replyId_isNullable db;
                   message_foreignKeys := message_foreignKeys db;
                   reply_table :=
                     Some {| rows := []; reply_foreignKeys := [FK_reply_run] |}
                |}).
    assert (H2 : createForeignKey unique_fk_names "reply_table" FK_reply_run
                   {| message_table := message_table db;
                      replyId_isNullable := replyId_isNullable db;
                      message_foreignKeys := message_foreignKeys db;
                      reply_table :=
                        Some {| rows := []; reply_foreignKeys := [] |} |}
                 = (inr tt, db1)).
    { unfold createForeignKey, bind, get, put, add_fk. simpl.
      now rewrite andb_false_r. }
    rewrite (bind_run _ _ _ _ _ H2).
    rewrite (bind_run _ _ _ _ _ (select_messages_run db1)).
    assert (Hall : Forall (fun m => exists d, msg m = Parsed d)
                     (order_by_id (message_table db1))).
    { apply Forall_forall. intros m Hm.
      apply (proj1 (In_order_by_id _ _)) in Hm.
      rewrite Forall_forall in Hparsed. now apply Hparsed. }
    destruct (scan_total now _ 0 [] 0 Hall) as (replyMap & n & Hscan).
    rewrite Hscan, (bind_run _ _ _ _ _ (lift_run _ db1)). cbn [fst snd].
    pose proof (scan_correct now _ _ _ Hscan) as Hinv.
    destruct (insert_replies_succeed (map_values replyMap) db1) as (db5 & H5).
    - discriminate.
    - assert (E : map Info.replyId (map_values replyMap) = map fst replyMap).
      { rewrite <- (inserted_keys _ _ _ Hinv). now rewrite map_map. }
      rewrite E. apply Hinv.
    - intros e _ H. exact H.
    - rewrite (bind_run _ _ _ _ _ H5).
      destruct (0 <? n)%nat; [rewrite update_replyId_from_id_run|];
        now eexists. }
  destruct Hb as (db2 & Hb).
  rewrite (up_after_backfill _ _ Hb). cbv zeta.
  destruct (up_backfill_ok _ _ Hb) as (_ & _ & _ & _ & Hmsgs & _ & Hfks & _).
  (* step 3: nothing is left NULL or empty *)
  assert (Hfilled : forall m, In m (message_table db2) ->
            exists r, replyId m = Some r /\ r <> "").
  { intros m Hm. rewrite Hmsgs in Hm. apply in_map_iff in Hm.
    destruct Hm as (m0 & <- & Hm0). exists (replyIdToUse m0).
    split; [apply backfilled_replyId | now apply Hkeys]. }
  assert (Hcount : List.length
                     (filter (fun m => is_null_or_empty (replyId m))
                        (message_table db2)) = 0).
  { rewrite filter_none; [reflexivity|]. intros m Hm.
    destruct (Hfilled m Hm) as (r & -> & Hne). simpl. unfold JS.nonempty.
    apply String.eqb_neq in Hne. now rewrite Hne. }
  rewrite Hcount. cbn [Nat.ltb Nat.leb].
  (* step 4 *)
  unfold up_constrain, changeColumn_replyId, bind at 1, bind at 1, get, put.
  assert (Hnone : existsb
                    (fun m => match replyId m with
                              | None => true
                              | Some _ => false
                              end) (message_table db2) = false).
  { destruct (existsb _ (message_table db2)) eqn:E; [|reflexivity].
    apply existsb_exists in E. destruct E as (m & Hm & E).
    destruct (Hfilled m Hm) as (r & Hr & _). rewrite Hr in E.
    discriminate. }
  rewrite Hnone. simpl.
  unfold createForeignKey, bind, get, put, add_fk. simpl.
  rewrite Hfks, Hname. now eexists.
Qed.

End UpFacts.

(** C1.  When [up] completes, every row of [message_table] has a replyId
    that is not NULL, not empty, and is the replyId of one of the rows that
    this run inserted into [reply_table]; the column has become NOT NULL and
    the foreign key to [reply_table] has been added. *)
Theorem up_referential_integrity
    (unique_fk_names : bool) (now : nat -> string) (db db' : Migration.Db) :
  Migration.up unique_fk_names now db = (inr tt, db') ->
  exists inserted,
    Migration.reply_rows db' = Migration.reply_rows db ++ inserted
    /\ Migration.replyId_isNullable db' = false
    /\ In Migration.FK_message_reply (Migration.message_foreignKeys db')
    /\ forall m, In m (Migration.message_table db') ->
         exists r,
           Migration.replyId m = Some r
           /\ r <> ""
           /\ In r (map Migration.ReplyRow.replyId inserted).
Proof.
  intros H. apply up_ok in H.
  destruct H as (db2 & Hb & Hfull & Hm & Hr & Hnull & Hfk).
  apply up_backfill_ok in Hb.
  destruct Hb as (replyMap & n & Hscan & Hrows & Hmsgs & _ & _ & _).
  apply scan_correct in Hscan.
  exists (map Migration.row_of (Migration.map_values replyMap)).
  split; [|split; [exact Hnull | split]].
  - unfold Migration.reply_rows in *. now rewrite Hr.
  - rewrite Hfk. apply in_app_iff. right. now left.
  - intros m Hin. rewrite Hm in Hin. pose proof (Hfull m Hin) as Hne.
    rewrite Hmsgs in Hin. apply in_map_iff in Hin.
    destruct Hin as (m0 & <- & Hin0).
    exists (Migration.replyIdToUse m0).
    rewrite backfilled_replyId in *. split; [reflexivity|]. split.
    + intros E. rewrite E in Hne. discriminate.
    + rewrite (inserted_keys now _ _ _ Hscan).
      destruct Hscan as (_ & Hkeys & _). apply Hkeys.
      apply In_order_by_id in Hin0.
      apply (In_numbered m0 _ 0) in Hin0. destruct Hin0 as (j & Hj).
      now exists (j, m0).
Qed.

(** C2.  The grouping key of a message is its replyId when that is present
    and not empty, and its own id otherwise.  When [up] completes, the rows
    it inserted into [reply_table] have pairwise distinct replyIds, which
    are exactly the grouping keys met in the scan (in ascending id order);
    the row of a key has as createdAt the timestamp of the first message of
    the key's group in scan order, and as finishedAt the greatest timestamp
    of the group.  On the three messages of the example the inserted rows
    are "1" (09:00 to 09:00) and "A" (09:05 to 09:10), message 1 gets
    replyId "1", and messages 2 and 3 keep "A". *)
Theorem up_one_reply_per_group :
  (forall m,
      Migration.replyIdToUse m
      = match Migration.replyId m with
        | Some r => if (r =? "")%string then Migration.id m else r
        | None => Migration.id m
        end)
  /\ (forall unique_fk_names now db db',
        Migration.up unique_fk_names now db = (inr tt, db') ->
        let scanned :=
          Migration.numbered 0
            (Migration.order_by_id (Migration.message_table db)) in
        Sorted Migration.id_le
          (Migration.order_by_id (Migration.message_table db))
        /\ Permutation (Migration.message_table db)
             (Migration.order_by_id (Migration.message_table db))
        /\ exists inserted,
          Migration.reply_rows db' = Migration.reply_rows db ++ inserted
          /\ NoDup (map Migration.ReplyRow.replyId inserted)
          /\ (forall k,
                In k (map Migration.ReplyRow.replyId inserted)
                <-> exists im, In im scanned /\ Migration.key_of im = k)
          /\ (forall row, In row inserted ->
                exists first rest greatest,
                  Migration.group (Migration.ReplyRow.replyId row) scanned
                    = first :: rest
                  /\ Migration.ReplyRow.createdAt row
                     = Migration.timestamp_of now first
                  /\ In greatest (first :: rest)
                  /\ Migration.ReplyRow.finishedAt row
                     = Some (Migration.timestamp_of now greatest)
                  /\ forall im, In im (first :: rest) ->
                       String.leb (Migration.timestamp_of now im)
                         (Migration.timestamp_of now greatest) = true))
  /\ (forall unique_fk_names now,
        exists db',
          Migration.up unique_fk_names now Migration.db_grouping
            = (inr tt, db')
          /\ map (fun row => (Migration.ReplyRow.replyId row,
                              Migration.ReplyRow.createdAt row,
                              Migration.ReplyRow.finishedAt row))
                (Migration.reply_rows db')
             = [ ("1", "09:00", Some "09:00"); ("A", "09:05", Some "09:10") ]
          /\ map (fun m => (Migration.id m, Migration.replyId m))
                (Migration.message_table db')
             = [ ("1", Some "1"); ("2", Some "A"); ("3", Some "A") ]).
Proof.
  split; [|split].
  - intros m. unfold Migration.replyIdToUse, Migration.hasReplyId, JS.nonempty.
    destruct (Migration.replyId m) as [r|]; [|reflexivity].
    destruct (r =? "")%string; reflexivity.
  - intros unique_fk_names now db db' H. cbv zeta.
    split; [apply order_by_id_sorted|]. split; [apply order_by_id_perm|].
    apply up_ok in H. destruct H as (db2 & Hb & _ & _ & Hr & _).
    apply up_backfill_ok in Hb.
    destruct Hb as (replyMap & n & Hscan & Hrows & _).
    apply scan_correct in Hscan.
    exists (map Migration.row_of (Migration.map_values replyMap)).
    split; [unfold Migration.reply_rows in *; now rewrite Hr|].
    rewrite (inserted_keys now _ _ _ Hscan).
    split; [apply Hscan | split; [apply Hscan|]].
    intros row Hin.
    destruct (inserted_row now _ _ _ row Hscan Hin) as (e & -> & Hsum).
    destruct Hsum
      as (_ & (first & rest & Hg & Hc & _)
          & (pre & im & post & Hg' & Hf & _ & _ & Hpre & Hpost)).
    exists first, rest, im. rewrite <- Hg.
    split; [reflexivity|]. split; [exact Hc|].
    assert (Him : In im (Migration.group
                           (Migration.ReplyRow.replyId (Migration.row_of e))
                           (Migration.numbered 0
                              (Migration.order_by_id
                                 (Migration.message_table db))))).
    { rewrite Hg'. apply in_app_iff. right. now left. }
    split; [exact Him|]. split; [simpl; now rewrite Hf|].
    intros x Hx. rewrite Hg' in Hx. apply in_app_iff in Hx.
    destruct Hx as [Hx|[<-|Hx]].
    + apply ltb_leb. now apply Hpre.
    + apply leb_refl.
    + now apply Hpost.
  - intros [|] now; eexists; (split; [vm_compute; reflexivity|]);
      split; reflexivity.
Qed.

Lemma up_one_reply_per_group_witness :
  exists db',
    Migration.up false Migration.sample_clock Migration.db_grouping
      = (inr tt, db')
    /\ exists inserted,
         Migration.reply_rows db'
           = Migration.reply_rows Migration.db_grouping ++ inserted
         /\ NoDup (map Migration.ReplyRow.replyId inserted).
Proof.
  eexists. split; [vm_compute; reflexivity|].
  destruct (proj1 (proj2 up_one_reply_per_group)
              false Migration.sample_clock Migration.db_grouping _ eq_refl)
    as (_ & _ & inserted & Hrows & Hnd & _).
  exists inserted. split; [exact Hrows | exact Hnd].
Defined.

(** The claim C3 as written fails.  Messages "1" (role user, 09:10) and
    "2" (role assistant, 09:05) belong to reply "A"; the last message of
    the group in scan order is "2", yet the inserted reply keeps the role
    of message "1". *)
Lemma reply_role_is_not_last_write :
  exists db' row last,
    Migration.up false Migration.sample_clock Migration.db_out_of_order
      = (inr tt, db')
    /\ Migration.reply_rows db' = [row]
    /\ Migration.ReplyRow.replyId row = "A"
    /\ Migration.group "A"
         (Migration.numbered 0
            (Migration.order_by_id
               (Migration.message_table Migration.db_out_of_order)))
       = [ (0, Migration.sample_row "1" (Some "A") "user" "09:10"); last ]
    /\ Migration.role_of last = "assistant"
    /\ Migration.ReplyRow.replyRole row = "user"
    /\ Migration.ReplyRow.replyRole row <> Migration.role_of last.
Proof.
  do 3 eexists. split; [vm_compute; reflexivity|].
  split; [reflexivity|]. split; [reflexivity|].
  split; [reflexivity|]. split; [reflexivity|].
  split; [reflexivity | discriminate].
Qed.

(** C3 (amended).  When the scan meets a key again, finishedAt, role and
    name are replaced together, and only when the timestamp of the new
    message is greater than the current finishedAt; otherwise the record is
    left as it is.  Hence, when [up] completes, the finishedAt, role and
    name of an inserted reply are those of one message of its group: the
    first one in scan order that carries the greatest timestamp of the
    group (every earlier message of the group has a smaller timestamp, no
    later one has a greater timestamp). *)
Theorem reply_role_follows_finishedAt :
  (forall now i message msgData replyMap existing,
      Migration.map_get (Migration.replyIdToUse message) replyMap
        = Some existing ->
      let timestamp := Migration.read_timestamp now i msgData in
      Migration.map_get (Migration.replyIdToUse message)
        (Migration.scan_step now i message msgData replyMap)
      = Some
          (if String.ltb (Migration.Info.finishedAt existing) timestamp
           then
             Migration.Info.mk
               (Migration.Info.replyId existing)
               (Migration.read_role msgData)
               (Migration.read_name msgData)
               (Migration.Info.runId existing)
               (Migration.Info.createdAt existing)
               timestamp
           else existing))
  /\ (forall unique_fk_names now db db',
        Migration.up unique_fk_names now db = (inr tt, db') ->
        let scanned :=
          Migration.numbered 0
            (Migration.order_by_id (Migration.message_table db)) in
        exists inserted,
          Migration.reply_rows db' = Migration.reply_rows db ++ inserted
          /\ forall row, In row inserted ->
               exists pre im post,
                 Migration.group (Migration.ReplyRow.replyId row) scanned
                   = pre ++ im :: post
                 /\ Migration.ReplyRow.finishedAt row
                    = Some (Migration.timestamp_of now im)
                 /\ Migration.ReplyRow.replyRole row = Migration.role_of im
                 /\ Migration.ReplyRow.replyName row = Migration.name_of im
                 /\ (forall x, In x pre ->
                       String.ltb (Migration.timestamp_of now x)
                         (Migration.timestamp_of now im) = true)
                 /\ (forall x, In x post ->
                       String.leb (Migration.timestamp_of now x)
                         (Migration.timestamp_of now im) = true)).
Proof.
  split.
  - intros now i message msgData replyMap existing Hget. cbv zeta.
    unfold Migration.scan_step. cbv zeta. rewrite Hget.
    destruct (String.ltb _ _).
    + rewrite map_get_set, String.eqb_refl. reflexivity.
    + exact Hget.
  - intros unique_fk_names now db db' H. cbv zeta.
    apply up_ok in H. destruct H as (db2 & Hb & _ & _ & Hr & _).
    apply up_backfill_ok in Hb.
    destruct Hb as (replyMap & n & Hscan & Hrows & _).
    apply scan_correct in Hscan.
    exists (map Migration.row_of (Migration.map_values replyMap)).
    split; [unfold Migration.reply_rows in *; now rewrite Hr|].
    intros row Hin.
    destruct (inserted_row now _ _ _ row Hscan Hin) as (e & -> & Hsum).
    destruct Hsum
      as (_ & _ & (pre & im & post & Hg & Hf & Hro & Hna & Hpre & Hpost)).
    exists pre, im, post. simpl. rewrite Hf.
    repeat split; assumption.
Qed.

Lemma reply_role_follows_finishedAt_witness :
  exists db',
    Migration.up false Migration.sample_clock Migration.db_out_of_order
      = (inr tt, db')
    /\ exists inserted,
         Migration.reply_rows db'
         = Migration.reply_rows Migration.db_out_of_order ++ inserted.
Proof.
  eexists. split; [vm_compute; reflexivity|].
  destruct (proj2 reply_role_follows_finishedAt
              false Migration.sample_clock Migration.db_out_of_order
              _ eq_refl)
    as (inserted & Hrows & _).
  exists inserted. exact Hrows.
Defined.

(** C4.  After a successful backfill, let [count] be the number of rows of
    [message_table] whose replyId is NULL or empty; this is what the query
    of the integrity check returns.  [up] throws the error
    of the integrity check exactly when [count] is positive.  In that case
    it stops in the state left by the backfill: the replyId column keeps its
    nullability and [message_table] keeps its foreign keys, so neither the
    NOT NULL alteration nor the foreign key creation has happened.  When
    [count] is zero, [up] goes on with these two schema changes. *)
Theorem integrity_check_gate
    (unique_fk_names : bool) (now : nat -> string) (db db2 : Migration.Db) :
  Migration.up_backfill unique_fk_names now db = (inr tt, db2) ->
  let count :=
    List.length
      (filter (fun m => Migration.is_null_or_empty (Migration.replyId m))
         (Migration.message_table db2)) in
  Migration.count_null_replyId db2 = (inr count, db2)
  /\ ((exists c st,
         Migration.up unique_fk_names now db
         = (inl (Migration.MigrationFailed c), st))
      <-> 0 < count)
  /\ (0 < count ->
      Migration.up unique_fk_names now db
        = (inl (Migration.MigrationFailed count), db2)
      /\ Migration.replyId_isNullable db2 = Migration.replyId_isNullable db
      /\ Migration.message_foreignKeys db2
         = Migration.message_foreignKeys db)
  /\ (count = 0 ->
      Migration.up unique_fk_names now db
        = Migration.up_constrain unique_fk_names db2).
Proof.
  intros Hb. cbv zeta.
  rewrite (up_after_backfill unique_fk_names now db db2 Hb). cbv zeta.
  split; [apply count_null_replyId_run|].
  set (count := List.length _).
  destruct (Nat.ltb_spec 0 count) as [Hpos|Hzero].
  - split; [|split].
    + split; [intros _; exact Hpos | intros _; now exists count, db2].
    + intros _. apply up_backfill_ok in Hb.
      destruct Hb as (replyMap & n & _ & _ & _ & Hn & Hf & _).
      repeat split; assumption.
    + intros Hc. exfalso. lia.
  - split; [|split].
    + split; [|intros Hc; exfalso; lia].
      intros (c & st & H). apply up_constrain_error in H.
      destruct H as [H|H]; discriminate.
    + intros Hc. exfalso. lia.
    + reflexivity.
Qed.

Lemma integrity_check_gate_witness :
  exists db2,
    Migration.up_backfill false Migration.sample_clock Migration.db_empty_id
      = (inr tt, db2)
    /\ Migration.up false Migration.sample_clock Migration.db_empty_id
       = (inl (Migration.MigrationFailed 1), db2)
    /\ Migration.replyId_isNullable db2 = true
    /\ Migration.message_foreignKeys db2 = [].
Proof.
  eexists. split; [vm_compute; reflexivity|].
  destruct (integrity_check_gate false Migration.sample_clock
              Migration.db_empty_id _ eq_refl) as (_ & _ & H & _).
  apply H. vm_compute. apply le_n.
Defined.

Section SecondRun.

Import Migration.

(** The clocks of the first and of the second run. *)
Variables now now' : nat -> string.

Lemma order_by_id_nil (l : list MessageRow) :
  order_by_id l = [] -> l = [].
Proof.
  destruct l as [|m l]; [reflexivity|]. intros E.
  assert (H : In m (order_by_id (m :: l)))
    by (apply In_order_by_id; now left).
  rewrite E in H. destruct H.
Qed.

Lemma hasReplyId_key (m : MessageRow) :
  is_null_or_empty (replyId m) = false ->
  replyId m = Some (replyIdToUse m).
Proof.
  rewrite null_or_empty_hasReplyId. unfold replyIdToUse.
  destruct (hasReplyId m) eqn:E; [|discriminate]. intros _.
  unfold hasReplyId in E. destruct (replyId m); [reflexivity|discriminate].
Qed.

(** After a first run, the createTable step finds the table and does
    nothing. *)
Lemma second_createTable (unique_fk_names : bool) (db db1 : Db) :
  up unique_fk_names now db = (inr tt, db1) ->
  createTable_reply true db1 = (inr tt, db1)
  /\ In FK_reply_run (reply_fks db1).
Proof.
  intros H. apply up_ok in H.
  destruct H as (db2 & Hb & _ & _ & Hr & _).
  pose proof (up_backfill_fks _ _ _ _ Hb) as Hfks.
  apply up_backfill_ok in Hb.
  destruct Hb as (_ & _ & _ & _ & _ & _ & _ & Hsome).
  rewrite <- Hr in Hsome. split.
  - destruct (createTable_reply_ifNotExists db1) as (db1' & H1 & _ & _ & _ & E).
    now rewrite (E Hsome) in H1.
  - unfold reply_fks in *. rewrite Hr, Hfks.
    apply in_app_iff. right. now left.
Qed.

(** Where duplicate constraint names are accepted, the second run gets
    as far as the first INSERT. *)
Lemma second_up_unique_violation (db db1 : Db) :
  up false now db = (inr tt, db1) ->
  message_table db <> [] ->
  exists k st,
    up false now' db1 = (inl (UniqueConstraintFailed k), st)
    /\ In k (map ReplyRow.replyId (reply_rows db1)).
Proof.
  intros Hup Hne.
  destruct (second_createTable _ _ _ Hup) as (Hct & _).
  apply up_ok in Hup.
  destruct Hup as (db2 & Hb & Hfull & Hm & Hr & _).
  apply up_backfill_ok in Hb.
  destruct Hb as (replyMap & n & Hscan & Hrows & Hmsgs & _ & _ & Hsome).
  apply scan_correct in Hscan.
  pose proof (inserted_keys now _ _ _ Hscan) as Hkeys.
  destruct Hscan as (_ & Hin_keys & _ & _ & Hparsed).
  rewrite <- Hr in Hsome.
  destruct (createForeignKey_reply_run FK_reply_run db1 Hsome)
    as (db1a & Hfk & Hma & Hra).
  (* every message of the migrated table refers to an inserted reply *)
  assert (Hrefs : forall m, In m (message_table db1) ->
            (exists d, msg m = Parsed d)
            /\ In (replyIdToUse m) (map ReplyRow.replyId (reply_rows db1))).
  { intros m Hin. rewrite Hm in Hin. pose proof (Hfull m Hin) as Hfill.
    apply hasReplyId_key in Hfill.
    rewrite Hmsgs in Hin. apply in_map_iff in Hin.
    destruct Hin as (m0 & <- & Hin0).
    rewrite backfilled_replyId in Hfill. injection Hfill as Hfill.
    rewrite <- Hfill.
    apply In_order_by_id in Hin0.
    apply (In_numbered m0 _ 0) in Hin0. destruct Hin0 as (j & Hj).
    split.
    - rewrite Forall_forall in Hparsed. destruct (Hparsed _ Hj) as (d & Hd).
      exists d. unfold backfilled. simpl in Hd.
      now destruct (is_null_or_empty (replyId m0)).
    - unfold reply_rows in *. rewrite Hr, Hrows, map_app, in_app_iff.
      right. rewrite Hkeys. apply Hin_keys. now exists (j, m0). }
  destruct (order_by_id (message_table db1)) as [|x rest] eqn:Hsorted.
  { exfalso. apply order_by_id_nil in Hsorted.
    rewrite Hm, Hmsgs in Hsorted. apply map_eq_nil in Hsorted.
    contradiction. }
  assert (Hall : Forall (fun m => exists d, msg m = Parsed d) (x :: rest)).
  { apply Forall_forall. intros m Hin. rewrite <- Hsorted in Hin.
    apply (proj1 (In_order_by_id _ _)) in Hin.
    exact (proj1 (Hrefs m Hin)). }
  destruct (scan_total now' (x :: rest) 0 [] 0 Hall)
    as (replyMap' & n' & Hscan').
  destruct (scan_head now' _ _ _ _ Hscan') as (e & tl & -> & Hid).
  assert (Hx : In (Info.replyId e)
                 (map ReplyRow.replyId (reply_rows db1a))).
  { rewrite Hid, Hra. apply Hrefs. apply In_order_by_id.
    rewrite Hsorted. now left. }
  exists (Info.replyId e), db1a. split; [|now rewrite <- Hra].
  unfold up. apply bind_fail. unfold up_backfill.
  rewrite (bind_run _ _ _ _ _ Hct), (bind_run _ _ _ _ _ Hfk).
  rewrite (bind_run _ _ _ _ _ (select_messages_run db1a)).
  rewrite Hma, Hsorted, Hscan'.
  rewrite (bind_run _ _ _ _ _ (lift_run _ db1a)).
  cbn [fst snd map_values map].
  apply bind_fail. now apply insert_replies_duplicate.
Qed.

(** Where duplicate constraint names are rejected, the second run stops
    at the foreign key of [reply_table]. *)
Lemma second_up_duplicate_fk (db db1 : Db) :
  up true now db = (inr tt, db1) ->
  up true now' db1 = (inl (DuplicateConstraint "FK_reply_run"), db1).
Proof.
  intros Hup. destruct (second_createTable _ _ _ Hup) as (Hct & Hfk).
  unfold up. apply bind_fail. unfold up_backfill.
  rewrite (bind_run _ _ _ _ _ Hct). apply bind_fail.
  now apply createForeignKey_reply_duplicate.
Qed.

End SecondRun.

(** The claim C5 as written fails.  After a complete run on the three
    messages of the example, the createTable step of a second run succeeds
    and leaves the database as it is; that run stops later, on the first
    INSERT, with a violation of the primary key.  On an empty
    [message_table] the second run even completes. *)
Lemma second_up_is_not_table_exists :
  (exists db1 st,
      Migration.up false Migration.sample_clock Migration.db_grouping
        = (inr tt, db1)
      /\ Migration.createTable_reply true db1 = (inr tt, db1)
      /\ Migration.up false Migration.sample_clock db1
         = (inl (Migration.UniqueConstraintFailed "1"), st)
      /\ Migration.UniqueConstraintFailed "1"
         <> Migration.TableAlreadyExists "reply_table")
  /\ (exists db1 db2,
        Migration.up false Migration.sample_clock Migration.db_no_messages
          = (inr tt, db1)
        /\ Migration.up false Migration.sample_clock db1 = (inr tt, db2)).
Proof.
  split.
  - do 2 eexists. split; [vm_compute; reflexivity|].
    split; [reflexivity|]. split; [vm_compute; reflexivity | discriminate].
  - do 2 eexists. split; vm_compute; reflexivity.
Qed.

(** C5 (amended).  On a schema where [up] has completed, the createTable
    step of a second run succeeds and changes nothing, because the table is
    created with ifNotExists; whatever stops the second run, it is not a
    table-already-exists error.  Where the database rejects a duplicate
    constraint name the second run stops when it adds FK_reply_run again;
    elsewhere, if [message_table] is not empty, it stops at the first
    INSERT into [reply_table] on a replyId that is already there. *)
Theorem second_up_passes_table_creation
    (unique_fk_names : bool) (now now' : nat -> string)
    (db db1 : Migration.Db) :
  Migration.up unique_fk_names now db = (inr tt, db1) ->
  Migration.createTable_reply true db1 = (inr tt, db1)
  /\ (forall e st,
        Migration.up unique_fk_names now' db1 = (inl e, st) ->
        Migration.is_table_exists e = false)
  /\ (if unique_fk_names
      then Migration.up true now' db1
           = (inl (Migration.DuplicateConstraint "FK_reply_run"), db1)
      else Migration.message_table db <> [] ->
           exists k st,
             Migration.up false now' db1
               = (inl (Migration.UniqueConstraintFailed k), st)
             /\ In k (map Migration.ReplyRow.replyId
                        (Migration.reply_rows db1))).
Proof.
  intros Hup. split; [|split].
  - exact (proj1 (second_createTable now _ _ _ Hup)).
  - intros e st. apply up_error.
  - destruct unique_fk_names.
    + now apply second_up_duplicate_fk with now db.
    + intros Hne. now apply second_up_unique_violation with now db.
Qed.

Lemma second_up_passes_table_creation_witness :
  exists db1,
    Migration.up false Migration.sample_clock Migration.db_grouping
      = (inr tt, db1)
    /\ Migration.createTable_reply true db1 = (inr tt, db1).
Proof.
  eexists. split; [vm_compute; reflexivity|].
  exact (proj1 (second_up_passes_table_creation
                  false Migration.sample_clock Migration.sample_clock
                  Migration.db_grouping _ eq_refl)).
Defined.

Section DownFacts.

Import Migration.

(** [down] always completes, in this state. *)
Lemma down_run (db : Db) :
  down db
  = (inr tt,
     {| message_table := map (with_replyId None) (message_table db);
        replyId_isNullable := true;
        message_foreignKeys :=
          match find (fk_on "replyId") (message_foreignKeys db) with
          | Some foreignKey =>
              remove_first
                (fun fk => (fk_name fk =? fk_name foreignKey)%string)
                (message_foreignKeys db)
          | None => message_foreignKeys db
          end;
        reply_table := None |}).
Proof.
  destruct db as [ms nullable fks t].
  cbv [down bind getTable_message_foreignKeys get ret message_foreignKeys].
  destruct (find (fk_on "replyId") fks) as [fk|]; destruct t; reflexivity.
Qed.

Lemma find_last_fk (fks : list TableForeignKey) (fk : TableForeignKey) :
  (forall x, In x fks -> fk_on "replyId" x = false) ->
  fk_on "replyId" fk = true ->
  find (fk_on "replyId") (fks ++ [fk]) = Some fk.
Proof.
  intros Hno Hfk. induction fks as [|y fks IH]; simpl.
  - now rewrite Hfk.
  - rewrite (Hno y) by now left. apply IH. intros x Hx. apply Hno.
    now right.
Qed.

Lemma remove_first_last (fks : list TableForeignKey) (n : string)
    (fk : TableForeignKey) :
  (forall x, In x fks -> fk_name x <> n) ->
  fk_name fk = n ->
  remove_first (fun x => (fk_name x =? n)%string) (fks ++ [fk]) = fks.
Proof.
  intros Hno Hfk. induction fks as [|y fks IH]; simpl.
  - apply String.eqb_eq in Hfk. now rewrite Hfk.
  - assert (E : (fk_name y =? n)%string = false)
      by (apply String.eqb_neq, Hno; now left).
    rewrite E. f_equal. apply IH. intros x Hx. apply Hno. now right.
Qed.

End DownFacts.

(** C6.  [down] always completes; afterwards the replyId column is
    nullable, every message row has replyId NULL (the rows are otherwise
    unchanged), [reply_table] does not exist, and the first foreign key of
    [message_table] on the replyId column has been dropped - which is
    FK_message_reply when it is the only one on that column and of that
    name.  A later [up] therefore gives every message its own id as
    replyId.  The round trip is lossy: on the three messages of the example
    the first [up] inserts the replies "1" and "A", and [up] after [down]
    inserts "1", "2" and "3". *)
Theorem down_then_up_is_lossy :
  (forall db,
      exists db',
        Migration.down db = (inr tt, db')
        /\ Migration.replyId_isNullable db' = true
        /\ Migration.message_table db'
           = map (Migration.with_replyId None) (Migration.message_table db)
        /\ (forall m, In m (Migration.message_table db') ->
              Migration.replyId m = None)
        /\ Migration.reply_table db' = None
        /\ Migration.message_foreignKeys db'
           = match find (Migration.fk_on "replyId")
                     (Migration.message_foreignKeys db) with
             | Some foreignKey =>
                 Migration.remove_first
                   (fun fk => (Migration.fk_name fk
                               =? Migration.fk_name foreignKey)%string)
                   (Migration.message_foreignKeys db)
             | None => Migration.message_foreignKeys db
             end
        /\ (forall fks,
              Migration.message_foreignKeys db
                = fks ++ [Migration.FK_message_reply] ->
              (forall fk, In fk fks ->
                 Migration.fk_on "replyId" fk = false
                 /\ Migration.fk_name fk <> "FK_message_reply") ->
              Migration.message_foreignKeys db' = fks))
  /\ (forall unique_fk_names now db db1 db2,
        Migration.down db = (inr tt, db1) ->
        Migration.up unique_fk_names now db1 = (inr tt, db2) ->
        forall m, In m (Migration.message_table db2) ->
          Migration.replyId m = Some (Migration.id m))
  /\ (exists db1 db2 db3,
        Migration.up false Migration.sample_clock Migration.db_grouping
          = (inr tt, db1)
        /\ Migration.down db1 = (inr tt, db2)
        /\ Migration.up false Migration.sample_clock db2 = (inr tt, db3)
        /\ map Migration.ReplyRow.replyId (Migration.reply_rows db1)
           = ["1"; "A"]
        /\ map Migration.ReplyRow.replyId (Migration.reply_rows db3)
           = ["1"; "2"; "3"]
        /\ Migration.message_foreignKeys db1 = [Migration.FK_message_reply]
        /\ Migration.message_foreignKeys db2 = []
        /\ map (fun m => (Migration.id m, Migration.replyId m))
             (Migration.message_table db1)
           = [ ("1", Some "1"); ("2", Some "A"); ("3", Some "A") ]
        /\ map (fun m => (Migration.id m, Migration.replyId m))
             (Migration.message_table db3)
           = [ ("1", Some "1"); ("2", Some "2"); ("3", Some "3") ]).
Proof.
  split; [|split].
  - intros db. eexists. split; [apply down_run|]. cbn.
    split; [reflexivity|]. split; [reflexivity|].
    split.
    { intros m Hin. apply in_map_iff in Hin. now destruct Hin as (m0 & <- & _). }
    split; [reflexivity|]. split; [reflexivity|].
    intros fks Hfks Hno. rewrite Hfks.
    rewrite find_last_fk; [|intros x Hx; apply (Hno x Hx) | reflexivity].
    apply remove_first_last; [|reflexivity].
    intros x Hx. apply (Hno x Hx).
  - intros unique_fk_names now db db1 db2 Hdown Hup m Hin.
    rewrite down_run in Hdown. injection Hdown as <-.
    apply up_ok in Hup. destruct Hup as (db' & Hb & _ & Hm & _).
    apply up_backfill_ok in Hb.
    destruct Hb as (_ & _ & _ & _ & Hmsgs & _).
    rewrite Hm, Hmsgs in Hin. cbn in Hin.
    rewrite map_map in Hin. apply in_map_iff in Hin.
    destruct Hin as (m0 & <- & _). reflexivity.
  - do 3 eexists. split; [vm_compute; reflexivity|].
    split; [vm_compute; reflexivity|].
    split; [vm_compute; reflexivity|].
    repeat split.
Qed.

Lemma down_then_up_is_lossy_witness :
  exists db1 db2,
    Migration.down Migration.db_grouping = (inr tt, db1)
    /\ Migration.up false Migration.sample_clock db1 = (inr tt, db2)
    /\ forall m, In m (Migration.message_table db2) ->
         Migration.replyId m = Some (Migration.id m).
Proof.
  do 2 eexists. split; [vm_compute; reflexivity|].
  split; [vm_compute; reflexivity|].
  apply (proj1 (proj2 down_then_up_is_lossy)
           false Migration.sample_clock Migration.db_grouping _ _
           eq_refl eq_refl).
Defined.

Lemma up_referential_integrity_witness :
  exists db',
    Migration.up false Migration.sample_clock Migration.db_grouping
      = (inr tt, db')
    /\ exists inserted,
         Migration.reply_rows db'
           = Migration.reply_rows Migration.db_grouping ++ inserted
         /\ Migration.replyId_isNullable db' = false
         /\ In Migration.FK_message_reply (Migration.message_foreignKeys db')
         /\ forall m, In m (Migration.message_table db') ->
              exists r,
                Migration.replyId m = Some r
                /\ r <> ""
                /\ In r (map Migration.ReplyRow.replyId inserted).
Proof.
  eexists. split; [vm_compute; reflexivity|].
  apply (up_referential_integrity false Migration.sample_clock
           Migration.db_grouping _ eq_refl).
Defined.


(* ================================================================== *)
(** * Further properties *)

(** ** The hash and the asset table of avatar.tsx *)

Section AvatarAssetFacts.

Import JS Avatar AvatarAssets.

Lemma hash_loop_range (codes : list Z) :
  forall hash,
    codes <> [] ->
    (- 2 ^ 31 <= hash_loop hash codes < 2 ^ 31)%Z.
Proof.
  induction codes as [|c codes IH]; intros hash Hne; [congruence|].
  cbn [hash_loop]. destruct codes as [|c' codes'].
  - cbn [hash_loop]. apply hash_step_range.
  - apply IH. discriminate.
Qed.

Lemma string_length_append (a b : string) :
  String.length (a ++ b)%string = String.length a + String.length b.
Proof. induction a as [|c a IH]; simpl; [reflexivity | now rewrite IH]. Qed.

Lemma strip_suffix_app (suffix body : string) :
  strip_suffix suffix (body ++ suffix)%string = Some body.
Proof.
  induction body as [|c body IH].
  - simpl. destruct suffix; simpl; now rewrite ?Ascii.eqb_refl, ?String.eqb_refl.
  - change ((String c body ++ suffix)%string)
      with (String c (body ++ suffix)%string).
    cbn [strip_suffix].
    destruct (String.eqb_spec (String c (body ++ suffix)%string) suffix)
      as [E|_].
    + exfalso. apply (f_equal String.length) in E. simpl in E.
      rewrite string_length_append in E. lia.
    + now rewrite IH.
Qed.

Lemma append_inj_l (suffix a b : string) :
  (a ++ suffix)%string = (b ++ suffix)%string -> a = b.
Proof.
  revert b. induction a as [|c a IH]; intros [|d b] E; simpl in E.
  - reflexivity.
  - exfalso. apply (f_equal String.length) in E. simpl in E.
    rewrite string_length_append in E. lia.
  - exfalso. apply (f_equal String.length) in E. simpl in E.
    rewrite string_length_append in E. lia.
  - injection E as -> E. f_equal. now apply IH.
Qed.

Lemma fullPath_of_inj (a b : string) :
  fullPath_of a = fullPath_of b -> a = b.
Proof.
  unfold fullPath_of. cbn [String.append]. intros E.
  injection E as E. now apply append_inj_l in E.
Qed.

(** On a key of the glob the regular expression captures the name. *)
Lemma relative_name_glob (name_part : string) :
  nonempty name_part = true ->
  no_line_terminator name_part = true ->
  relative_name (fullPath_of name_part) = name_part.
Proof.
  intros Hne Hnl. unfold relative_name, fullPath_of.
  cbn [String.append regexp_match match_here strip_prefix Ascii.eqb
       Bool.eqb].
  rewrite strip_suffix_app, Hne, Hnl. reflexivity.
Qed.

Lemma AVATAR_PATHS_nonempty_entries (avatarModules : Modules) (path : string) :
  In path (AVATAR_PATHS avatarModules) -> nonempty path = true.
Proof. unfold AVATAR_PATHS. intros H. now apply filter_In in H. Qed.

Lemma nonempty_neq (path : string) : nonempty path = true <-> path <> "".
Proof.
  unfold nonempty. destruct (String.eqb_spec path ""); simpl; split;
    congruence.
Qed.

Lemma getAvatarPathByName_In (paths : list string) (name : string)
    (seed : Z) :
  paths <> [] ->
  exists path,
    getAvatarPathByName paths name seed = Some path /\ In path paths.
Proof.
  intros Hne. unfold getAvatarPathByName.
  destruct paths as [|p ps]; [congruence|]. set (l := p :: ps).
  cbn [List.length Nat.eqb].
  assert (Hlen : (0 < Z.of_nat (List.length l))%Z) by (simpl; lia).
  assert (Hh : (0 <= hashString name seed)%Z)
    by (unfold hashString; apply Z.abs_nonneg).
  rewrite Z.rem_mod_nonneg by lia.
  apply array_get_in_range. now apply Z.mod_pos_bound.
Qed.

Lemma loader_In (avatarModules : Modules) (key : string) :
  In key (map fst avatarModules) ->
  exists component,
    loader key avatarModules = Some component
    /\ In component (map snd avatarModules).
Proof.
  induction avatarModules as [|[k c] rest IH]; simpl; [tauto|].
  destruct (String.eqb_spec k key) as [->|Hne].
  - intros _. exists c. split; [reflexivity | now left].
  - intros [E|Hin]; [congruence|].
    destruct (IH Hin) as (c' & Hl & Hc). exists c'. split; [exact Hl|].
    now right.
Qed.

Lemma AVATAR_PATHS_glob (avatarModules : Modules) :
  (forall key, In key (map fst avatarModules) -> glob_key key) ->
  forall path,
    In path (AVATAR_PATHS avatarModules)
    <-> exists key, In key (map fst avatarModules)
                    /\ key = fullPath_of path /\ nonempty path = true.
Proof.
  intros Hglob path. unfold AVATAR_PATHS.
  rewrite filter_In, in_map_iff. split.
  - intros ((key & Hrel & Hin) & Hne). exists key. split; [exact Hin|].
    destruct (Hglob key Hin) as (np & -> & Hnp & Hnl).
    rewrite relative_name_glob in Hrel by assumption. subst np.
    split; [reflexivity | exact Hne].
  - intros (key & Hin & -> & Hne).
    destruct (Hglob _ Hin) as (np & E & Hnp & Hnl).
    split; [|exact Hne]. exists (fullPath_of path). split; [|exact Hin].
    rewrite E. rewrite relative_name_glob by assumption.
    symmetry. now apply fullPath_of_inj.
Qed.

End AvatarAssetFacts.

(** X1.  [hashString] never returns a negative number.  For the empty
    string it returns the absolute value of the seed; for any other string
    the result is at most 2^31, whatever the seed - one more than the
    greatest 32-bit integer, because [Math.abs] maps -2^31 to 2^31. *)
Theorem hashString_range (str : string) (seed : Z) :
  (0 <= Avatar.hashString str seed)%Z
  /\ match str with
     | EmptyString => Avatar.hashString str seed = Z.abs seed
     | String _ _ => (Avatar.hashString str seed <= 2 ^ 31)%Z
     end.
Proof.
  split; [unfold Avatar.hashString; apply Z.abs_nonneg|].
  destruct str as [|c str]; [reflexivity|].
  unfold Avatar.hashString.
  pose proof (hash_loop_range (JS.charCodes (String c str)) seed
                ltac:(discriminate)) as H.
  lia.
Qed.



(** X3.  Whatever the module keys are, [AVATAR_PATHS] never lists the empty
    string; so [getAvatarPathByName] returns the empty string exactly when
    there is no asset, and the effect of [AsAvatar] then starts no load.
    An empty or unknown path makes [loadAvatarComponent] resolve to null. *)
Theorem avatar_paths_never_empty
    (avatarModules : AvatarAssets.Modules) (name : string) (seed : Z) :
  ~ In "" (AvatarAssets.AVATAR_PATHS avatarModules)
  /\ (Avatar.getAvatarPathByName (AvatarAssets.AVATAR_PATHS avatarModules)
        name seed = Some ""
      <-> AvatarAssets.AVATAR_PATHS avatarModules = [])
  /\ (forall p,
        AvatarAssets.AVATAR_PATHS avatarModules = [] ->
        Avatar.requestedAvatar (AvatarAssets.AVATAR_PATHS avatarModules) p
        = None)
  /\ AvatarAssets.loadAvatarComponent avatarModules "" = None
  /\ (forall path,
        ~ In (AvatarAssets.fullPath_of path) (map fst avatarModules) ->
        AvatarAssets.loadAvatarComponent avatarModules path = None).
Proof.
  split; [|split; [|split; [|split]]].
  - intros H. now apply AVATAR_PATHS_nonempty_entries in H.
  - split.
    + intros H.
      destruct (AvatarAssets.AVATAR_PATHS avatarModules) as [|p ps] eqn:E;
        [reflexivity|].
      exfalso.
      destruct (getAvatarPathByName_In (p :: ps) name seed ltac:(discriminate))
        as (path & Hget & Hin).
      rewrite Hget in H. injection H as ->. rewrite <- E in Hin.
      now apply AVATAR_PATHS_nonempty_entries in Hin.
    + intros ->. reflexivity.
  - intros p ->. unfold Avatar.requestedAvatar. simpl.
    now destruct (Avatar.randomAvatar p && _).
  - reflexivity.
  - intros path Hnot. unfold AvatarAssets.loadAvatarComponent.
    destruct (JS.nonempty path); [|reflexivity]. simpl.
    induction avatarModules as [|[k c] rest IH]; [reflexivity|].
    simpl in *. destruct (String.eqb_spec k (AvatarAssets.fullPath_of path)).
    + exfalso. apply Hnot. now left.
    + apply IH. intros H. apply Hnot. now right.
Qed.

(** X4.  When at least one asset exists and every module key has the glob
    form, the effect of [AsAvatar] for a participant with [randomAvatar] on
    and a role other than system starts the load of a listed asset whose
    loader is in the module table.  If the promise of that loader resolves
    to a module with a component, the component replaces the state and,
    without a custom renderer, is what [AsAvatar] then shows.  If it
    resolves to a module without a component, or is rejected, the state is
    left as it was; from the initial state and without a custom renderer
    [AsAvatar] goes on showing the initials badge. *)
Theorem random_avatar_resolves
    (avatarModules : AvatarAssets.Modules)
    (fate : string -> AvatarAssets.Fate) (p : Avatar.Props)
    (st : Avatar.State) :
  avatarModules <> [] ->
  (forall key, In key (map fst avatarModules) -> AvatarAssets.glob_key key) ->
  Avatar.randomAvatar p = true ->
  JS.toLowerCase (Avatar.role p) <> "system" ->
  exists path component,
    Avatar.requestedAvatar (AvatarAssets.AVATAR_PATHS avatarModules) p
    = Some path
    /\ In path (AvatarAssets.AVATAR_PATHS avatarModules)
    /\ AvatarAssets.loader (AvatarAssets.fullPath_of path) avatarModules
       = Some component
    /\ In component (map snd avatarModules)
    /\ match fate (AvatarAssets.fullPath_of path) with
       | AvatarAssets.Loads =>
           AvatarAssets.avatarEffect avatarModules fate p st = Some component
           /\ (Avatar.renderAvatar p = None ->
               Avatar.AsAvatar p
                 (AvatarAssets.avatarEffect avatarModules fate p st)
               = Avatar.NElement (Avatar.AvatarComponent component))
       | AvatarAssets.LoadsNothing | AvatarAssets.Rejects =>
           AvatarAssets.avatarEffect avatarModules fate p st = st
           /\ (Avatar.renderAvatar p = None -> st = None ->
               Avatar.AsAvatar p
                 (AvatarAssets.avatarEffect avatarModules fate p st)
               = Avatar.NElement
                   (Avatar.InitialsBadge
                      (JS.toUpperCase (JS.slice0 2 (Avatar.name p)))))
       end.
Proof.
  intros Hmods Hglob Hrandom Hrole.
  assert (Hpaths : AvatarAssets.AVATAR_PATHS avatarModules <> []).
  { destruct avatarModules as [|[k c] rest]; [congruence|].
    destruct (Hglob k (or_introl eq_refl)) as (np & Hk & Hne & Hnl).
    intros E.
    assert (Hin : In np (AvatarAssets.AVATAR_PATHS ((k, c) :: rest))).
    { apply (AVATAR_PATHS_glob _ Hglob). exists k.
      split; [now left | split; assumption]. }
    rewrite E in Hin. destruct Hin. }
  destruct (getAvatarPathByName_In _ (Avatar.name p) (Avatar.seed p) Hpaths)
    as (path & Hget & Hin).
  pose proof Hin as Hlisted.
  apply (AVATAR_PATHS_glob _ Hglob) in Hin.
  destruct Hin as (key & Hkey & -> & Hne).
  destruct (loader_In _ _ Hkey) as (component & Hload & Hcomp).
  apply String.eqb_neq in Hrole.
  assert (Hreq : Avatar.requestedAvatar
                   (AvatarAssets.AVATAR_PATHS avatarModules) p = Some path).
  { unfold Avatar.requestedAvatar. now rewrite Hrandom, Hrole, Hget, Hne. }
  assert (Heff : AvatarAssets.avatarEffect avatarModules fate p st
                 = match fate (AvatarAssets.fullPath_of path) with
                   | AvatarAssets.Loads => Some component
                   | _ => st
                   end).
  { unfold AvatarAssets.avatarEffect,
      AvatarAssets.loadAvatarComponent_settled.
    rewrite Hreq, Hne, Hload. cbn [negb].
    now destruct (fate (AvatarAssets.fullPath_of path)). }
  exists path, component.
  split; [exact Hreq|]. split; [exact Hlisted|].
  split; [exact Hload|]. split; [exact Hcomp|].
  rewrite Heff.
  destruct (fate (AvatarAssets.fullPath_of path)).
  - split; [reflexivity|]. intros Hnone. unfold Avatar.AsAvatar.
    now rewrite Hnone, Hrole, Hrandom.
  - split; [reflexivity|]. intros Hnone ->. unfold Avatar.AsAvatar.
    now rewrite Hnone, Hrole, Hrandom.
  - split; [reflexivity|]. intros Hnone ->. unfold Avatar.AsAvatar.
    now rewrite Hnone, Hrole, Hrandom.
Qed.

Lemma random_avatar_resolves_witness :
  let avatarModules :=
    [ ("../../../assets/svgs/avatar/fairytale/001-frog.svg", "Frog");
      ("../../../assets/svgs/avatar/space/001-ufo.svg", "Ufo") ] in
  let p := Avatar.mkProps "Friday" "assistant" true 14 None in
  (exists component,
     AvatarAssets.avatarEffect avatarModules (fun _ => AvatarAssets.Loads)
       p None = Some component
     /\ In component (map snd avatarModules))
  /\ AvatarAssets.avatarEffect avatarModules (fun _ => AvatarAssets.Rejects)
       p None = None
  /\ AvatarAssets.avatarEffect avatarModules
       (fun _ => AvatarAssets.LoadsNothing) p None = None.
Proof.
  cbv zeta. split; [|split].
  - destruct (random_avatar_resolves
                [ ("../../../assets/svgs/avatar/fairytale/001-frog.svg",
                   "Frog");
                  ("../../../assets/svgs/avatar/space/001-ufo.svg", "Ufo") ]
                (fun _ => AvatarAssets.Loads)
                (Avatar.mkProps "Friday" "assistant" true 14 None) None)
      as (path & component & _ & _ & _ & Hin & Heff).
    + discriminate.
    + intros key [<-|[<-|[]]].
      * exists "fairytale/001-frog". repeat split.
      * exists "space/001-ufo". repeat split.
    + reflexivity.
    + discriminate.
    + cbv beta iota in Heff. exists component.
      split; [exact (proj1 Heff) | exact Hin].
  - destruct (random_avatar_resolves
                [ ("../../../assets/svgs/avatar/fairytale/001-frog.svg",
                   "Frog");
                  ("../../../assets/svgs/avatar/space/001-ufo.svg", "Ufo") ]
                (fun _ => AvatarAssets.Rejects)
                (Avatar.mkProps "Friday" "assistant" true 14 None) None)
      as (path & component & _ & _ & _ & _ & Heff).
    + discriminate.
    + intros key [<-|[<-|[]]].
      * exists "fairytale/001-frog". repeat split.
      * exists "space/001-ufo". repeat split.
    + reflexivity.
    + discriminate.
    + cbv beta iota in Heff. exact (proj1 Heff).
  - destruct (random_avatar_resolves
                [ ("../../../assets/svgs/avatar/fairytale/001-frog.svg",
                   "Frog");
                  ("../../../assets/svgs/avatar/space/001-ufo.svg", "Ufo") ]
                (fun _ => AvatarAssets.LoadsNothing)
                (Avatar.mkProps "Friday" "assistant" true 14 None) None)
      as (path & component & _ & _ & _ & _ & Heff).
    + discriminate.
    + intros key [<-|[<-|[]]].
      * exists "fairytale/001-frog". repeat split.
      * exists "space/001-ufo". repeat split.
    + reflexivity.
    + discriminate.
    + cbv beta iota in Heff. exact (proj1 Heff).
Defined.


(** ** The transcript of AsChat and its bubbles *)

Section TranscriptFacts.

Import Chat ChatControls.

Lemma append_engaged (el : ScrollBox) (h : Z) :
  laid_out el -> (0 <= h)%Z ->
  exists el',
    scrolled (mkView true (Some el)) (appendReply h (mkView true (Some el)))
    = mkView true (Some el')
    /\ laid_out el'
    /\ scrollHeight el' = (scrollHeight el + h)%Z
    /\ clientHeight el' = clientHeight el
    /\ distance el' = 0%Z.
Proof.
  intros [Hc Hs] Hh.
  exists (set_scrollTop (scrollHeight el + h) (grow h el)).
  split.
  - unfold scrolled, appendReply, autoScroll, offset, handleScroll. simpl.
    destruct (Z.eqb_spec (scrollTop el)
                (Z.max 0 (Z.min (scrollHeight el + h)
                            (scrollHeight el + h - clientHeight el))));
      [reflexivity|].
    assert (E : (scrollHeight el + h
                 - Z.max 0 (Z.min (scrollHeight el + h)
                              (scrollHeight el + h - clientHeight el))
                 - clientHeight el <? 50)%Z = true) by (apply Z.ltb_lt; lia).
    now rewrite E.
  - unfold laid_out, distance. simpl. repeat split; lia.
Qed.

Lemma appendReplies_engaged (heights : list Z) :
  forall el,
    laid_out el -> Forall (fun h => (0 <= h)%Z) heights ->
    exists el',
      appendReplies heights (mkView true (Some el)) = mkView true (Some el')
      /\ laid_out el'
      /\ scrollHeight el' = (scrollHeight el + total heights)%Z
      /\ clientHeight el' = clientHeight el
      /\ (distance el' = 0%Z \/ heights = [] /\ el' = el).
Proof.
  induction heights as [|h rest IH]; intros el Hl Hall.
  - exists el. simpl. repeat split; try apply Hl; try lia. now right.
  - inversion Hall as [|? ? Hh Hrest]; subst.
    destruct (append_engaged el h Hl Hh) as (el1 & E1 & Hl1 & Hs1 & Hc1 & Hd1).
    destruct (IH el1 Hl1 Hrest) as (el' & E & Hl' & Hs' & Hc' & Hd').
    exists el'. cbn [appendReplies]. rewrite E1, E.
    split; [reflexivity|]. split; [exact Hl'|].
    split; [simpl; lia|]. split; [congruence|].
    left. destruct Hd' as [Hd'|[_ ->]]; assumption.
Qed.

Lemma appendReplies_disengaged (heights : list Z) :
  forall el,
    Forall (fun h => (0 <= h)%Z) heights ->
    appendReplies heights (mkView false (Some el))
    = mkView false
        (Some {| scrollTop := scrollTop el;
                 scrollHeight := (scrollHeight el + total heights)%Z;
                 clientHeight := clientHeight el |}).
Proof.
  induction heights as [|h rest IH]; intros el Hall.
  - simpl. rewrite Z.add_0_r. now destruct el.
  - inversion Hall as [|? ? Hh Hrest]; subst.
    cbn [appendReplies].
    assert (E : scrolled (mkView false (Some el))
                  (appendReply h (mkView false (Some el)))
                = mkView false (Some (grow h el))).
    { unfold scrolled, appendReply, autoScroll, offset. simpl.
      now rewrite Z.eqb_refl. }
    rewrite E, (IH (grow h el) Hrest). simpl.
    now rewrite Z.add_assoc.
Qed.

End TranscriptFacts.

(** X5.  While [isAtBottom] holds, auto-scroll keeps itself engaged: for a
    laid-out transcript and replies of non-negative heights arriving one
    after the other, each followed by the scroll event it causes,
    [isAtBottom] is still true at the end, and after at least one reply the
    view is exactly at the bottom of the grown content. *)
Theorem auto_scroll_stays_engaged (el : Chat.ScrollBox) (heights : list Z) :
  ChatControls.laid_out el ->
  Forall (fun h => (0 <= h)%Z) heights ->
  exists el',
    ChatControls.appendReplies heights (Chat.mkView true (Some el))
    = Chat.mkView true (Some el')
    /\ Chat.scrollHeight el'
       = (Chat.scrollHeight el + ChatControls.total heights)%Z
    /\ Chat.clientHeight el' = Chat.clientHeight el
    /\ (heights <> [] ->
        Chat.scrollTop el'
        = (Chat.scrollHeight el' - Chat.clientHeight el')%Z).
Proof.
  intros Hl Hall.
  destruct (appendReplies_engaged heights el Hl Hall)
    as (el' & E & _ & Hs & Hc & Hd).
  exists el'. repeat split; try assumption.
  intros Hne. destruct Hd as [Hd|[Hnil _]]; [|contradiction].
  unfold ChatControls.distance in Hd. lia.
Qed.

Lemma auto_scroll_stays_engaged_witness :
  let el := Chat.mkScrollBox 400 1000 600 in
  ChatControls.laid_out el
  /\ Forall (fun h => (0 <= h)%Z) [120; 0; 80]%Z
  /\ exists el',
       ChatControls.appendReplies [120; 0; 80]%Z (Chat.mkView true (Some el))
       = Chat.mkView true (Some el')
       /\ Chat.scrollHeight el' = 1200%Z
       /\ Chat.scrollTop el' = 600%Z.
Proof.
  cbv zeta.
  assert (Hl : ChatControls.laid_out (Chat.mkScrollBox 400 1000 600))
    by (unfold ChatControls.laid_out; simpl; lia).
  assert (Hall : Forall (fun h => (0 <= h)%Z) [120; 0; 80]%Z)
    by (repeat constructor; lia).
  split; [exact Hl|]. split; [exact Hall|].
  destruct (auto_scroll_stays_engaged _ _ Hl Hall) as (el' & E & Hs & Hc & Ht).
  exists el'. split; [exact E|]. split; [exact Hs|].
  rewrite (Ht ltac:(discriminate)), Hs, Hc. reflexivity.
Defined.

(** X6.  Once the user is 50 pixels or more away from the bottom and
    [isAtBottom] is false, arriving replies of non-negative heights never
    move the view: the scroll offset stays what it was, no scroll event
    occurs, [isAtBottom] stays false, and a later run of [handleScroll]
    without user movement still finds the view away from the bottom.  The
    arrow button brings it back: after its click and the scroll event,
    the view is at the bottom and [isAtBottom] is true again. *)
Theorem auto_scroll_stays_disengaged
    (el : Chat.ScrollBox) (heights : list Z) :
  ChatControls.laid_out el ->
  (50 <= ChatControls.distance el)%Z ->
  Forall (fun h => (0 <= h)%Z) heights ->
  let v := ChatControls.appendReplies heights (Chat.mkView false (Some el)) in
  (exists el',
      v = Chat.mkView false (Some el')
      /\ Chat.scrollTop el' = Chat.scrollTop el
      /\ Chat.scrollHeight el'
         = (Chat.scrollHeight el + ChatControls.total heights)%Z
      /\ Chat.isAtBottom (Chat.handleScroll v) = false)
  /\ (exists el'',
        ChatControls.scrolled v (ChatControls.scrollToBottomClick v)
        = Chat.mkView true (Some el'')
        /\ ChatControls.distance el'' = 0%Z).
Proof.
  intros [Hc Hs] Hd Hall. cbv zeta.
  rewrite (appendReplies_disengaged heights el Hall).
  assert (Htot : (0 <= ChatControls.total heights)%Z).
  { clear - Hall. induction Hall as [|h rest Hh _ IH]; simpl; lia. }
  unfold ChatControls.distance in *.
  split.
  - eexists. split; [reflexivity|]. simpl. repeat split.
    apply Z.ltb_ge. lia.
  - unfold ChatControls.scrolled, ChatControls.scrollToBottomClick,
      ChatControls.offset, Chat.handleScroll. simpl.
    destruct (Z.eqb_spec (Chat.scrollTop el)
                (Z.max 0
                   (Z.min (Chat.scrollHeight el + ChatControls.total heights)
                      (Chat.scrollHeight el + ChatControls.total heights
                       - Chat.clientHeight el)))) as [E|_]; [lia|].
    match goal with
    | |- context [(?d <? 50)%Z] =>
        replace (d <? 50)%Z with true by (symmetry; apply Z.ltb_lt; lia)
    end.
    unfold Chat.autoScroll. simpl.
    eexists. split; [reflexivity|]. simpl. lia.
Qed.

Lemma auto_scroll_stays_disengaged_witness :
  let el := Chat.mkScrollBox 100 1000 600 in
  ChatControls.laid_out el
  /\ (50 <= ChatControls.distance el)%Z
  /\ exists el',
       ChatControls.appendReplies [120; 80]%Z (Chat.mkView false (Some el))
       = Chat.mkView false (Some el')
       /\ Chat.scrollTop el' = 100%Z.
Proof.
  cbv zeta.
  assert (Hl : ChatControls.laid_out (Chat.mkScrollBox 100 1000 600))
    by (unfold ChatControls.laid_out; simpl; lia).
  assert (Hd : (50 <= ChatControls.distance (Chat.mkScrollBox 100 1000 600))%Z)
    by (unfold ChatControls.distance; simpl; lia).
  split; [exact Hl|]. split; [exact Hd|].
  destruct (auto_scroll_stays_disengaged _ [120; 80]%Z Hl Hd
              ltac:(repeat constructor; lia)) as ((el' & E & Ht & _) & _).
  exists el'. split; [exact E | exact Ht].
Defined.

(** X7.  The label of the action button and what a click does agree except
    in one case: when the label is "send" a click always calls
    [onSendClick] with the two inputs as given; when the label is
    "interrupt" a click calls [onInterruptClick] if that callback was
    supplied, and otherwise still calls [onSendClick] with the inputs. *)
Theorem action_click_matches_label
    {B S : Type} (isReplying allowInterrupt hasInterrupt : bool)
    (blocksInput : B) (structuredInput : S) :
  let label := ChatControls.actionType isReplying allowInterrupt in
  let called :=
    ChatControls.onActionClick isReplying allowInterrupt hasInterrupt
      blocksInput structuredInput in
  (label = "send" \/ label = "interrupt")
  /\ (label = "send" ->
      called = ChatControls.onSendClick_called blocksInput structuredInput)
  /\ (label = "interrupt" -> hasInterrupt = true ->
      called = ChatControls.onInterruptClick_called)
  /\ (label = "interrupt" -> hasInterrupt = false ->
      called = ChatControls.onSendClick_called blocksInput structuredInput)
  /\ (called = ChatControls.onInterruptClick_called ->
      isReplying = true /\ allowInterrupt = true /\ hasInterrupt = true).
Proof.
  cbv zeta. unfold ChatControls.actionType, ChatControls.onActionClick.
  destruct isReplying, allowInterrupt, hasInterrupt; simpl;
    repeat split; auto; try discriminate.
Qed.

(** X8.  In the flattened display no message is ever rendered as a
    collapsible hint: each bubble's reply role is its message's own role,
    which cannot be both "user" and "assistant".  The avatar of such a
    bubble is computed from the message's own name and role, with seed 14,
    and it is placed on the right exactly when [userAvatarRight] is on and
    the message's role is "user". *)
Theorem flattened_has_no_hint
    (replies : list Chat.Reply) (reply : Chat.Reply) (msg : Chat.Message)
    (randomAvatar userAvatarRight : bool)
    (renderAvatar : option (string -> string -> Avatar.ReactNode)) :
  In reply (Chat.organizedReplies replies false) ->
  In msg (Chat.messages reply) ->
  Bubble.isHintMessage reply msg = false
  /\ Bubble.avatarProps reply randomAvatar renderAvatar
     = Avatar.mkProps (Chat.name msg) (Chat.role msg) randomAvatar 14
         renderAvatar
  /\ Bubble.avatarRight userAvatarRight reply
     = userAvatarRight
       && (JS.toLowerCase (Chat.role msg) =? "user")%string.
Proof.
  rewrite organizedReplies_flat. intros Hr Hm.
  apply in_map_iff in Hr. destruct Hr as (m & <- & _).
  simpl in Hm. destruct Hm as [<-|[]].
  unfold Bubble.isHintMessage, Bubble.avatarProps, Bubble.avatarRight. simpl.
  repeat split.
  destruct (String.eqb_spec (JS.toLowerCase (Chat.role m)) "user") as [E|_];
    [|reflexivity].
  now rewrite E.
Qed.

Lemma flattened_has_no_hint_witness :
  let hint := Chat.mkMessage "m1" "alice" "user" "09:00" "remember this" in
  let answer := Chat.mkMessage "m2" "Friday" "assistant" "09:01" "ok" in
  let reply :=
    Chat.mkReply "r1" "Friday" "assistant" "09:00" "09:01" [hint; answer] in
  Bubble.isHintMessage reply hint = true
  /\ In (Chat.replyOfMessage hint) (Chat.organizedReplies [reply] false)
  /\ Bubble.isHintMessage (Chat.replyOfMessage hint) hint = false.
Proof.
  cbv zeta. split; [reflexivity|]. split; [now left|].
  apply (flattened_has_no_hint
           [Chat.mkReply "r1" "Friday" "assistant" "09:00" "09:01"
              [Chat.mkMessage "m1" "alice" "user" "09:00" "remember this";
               Chat.mkMessage "m2" "Friday" "assistant" "09:01" "ok"]]
           (Chat.replyOfMessage
              (Chat.mkMessage "m1" "alice" "user" "09:00" "remember this"))
           (Chat.mkMessage "m1" "alice" "user" "09:00" "remember this")
           true false None); simpl; now left.
Defined.

(** X9.  The two display modes compose as follows: the by-reply display is
    the list of replies itself; flattening an already flattened list gives
    the same list again; and a reply without messages, shown as an empty
    bubble in the by-reply display, has no bubble at all in the flattened
    display. *)
Theorem display_modes_compose (replies : list Chat.Reply) :
  Chat.organizedReplies replies true = replies
  /\ Chat.organizedReplies (Chat.organizedReplies replies false) false
     = Chat.organizedReplies replies false
  /\ Chat.organizedReplies
       (filter (fun reply =>
                  negb (List.length (Chat.messages reply) =? 0)%nat) replies)
       false
     = Chat.organizedReplies replies false.
Proof.
  split; [|split].
  - unfold Chat.organizedReplies. now destruct replies.
  - rewrite !organizedReplies_flat.
    now rewrite messages_of_synthesized.
  - rewrite !organizedReplies_flat. f_equal.
    induction replies as [|r replies IH]; [reflexivity|].
    simpl. destruct (Chat.messages r) as [|m ms] eqn:E; simpl.
    + exact IH.
    + now rewrite E, IH.
Qed.

(** ** More about the migration *)

Section MigrationMore.

Import Migration MigrationStates.

Variable unique_fk_names : bool.
Variable now : nat -> string.

Lemma pre_migration_name_free (db : Db) :
  pre_migration db ->
  has_fk_named "FK_message_reply" (message_foreignKeys db) = false.
Proof.
  intros (_ & _ & Hfks). unfold has_fk_named.
  destruct (existsb _ (message_foreignKeys db)) eqn:E; [|reflexivity].
  apply existsb_exists in E. destruct E as (fk & Hin & Heq).
  apply String.eqb_eq in Heq. now destruct (Hfks fk Hin).
Qed.

(** On a schema without [reply_table], steps 1 and 2 complete as soon as
    the scan can read every payload. *)
Lemma up_backfill_completes (db : Db) :
  reply_table db = None ->
  Forall parsed (message_table db) ->
  exists db2, up_backfill unique_fk_names now db = (inr tt, db2).
Proof.
  intros Hfresh Hparsed. unfold up_backfill.
  assert (H1 : createTable_reply true db
               = (inr tt,
                  {| message_table := message_table db;
                     replyId_isNullable := replyId_isNullable db;
                     message_foreignKeys := message_foreignKeys db;
                     reply_table :=
                       Some {| rows := []; reply_foreignKeys := [] |} |}))
    by (unfold createTable_reply, bind, get, put; now rewrite Hfresh).
  rewrite (bind_run _ _ _ _ _ H1).
  set (db1 := {| message_table := message_table db;
                 replyId_isNullable := replyId_isNullable db;
                 message_foreignKeys := message_foreignKeys db;
                 reply_table :=
                   Some {| rows := []; reply_foreignKeys := [FK_reply_run] |}
              |}).
  assert (H2 : createForeignKey unique_fk_names "reply_table" FK_reply_run
                 {| message_table := message_table db;
                    replyId_isNullable := replyId_isNullable db;
                    message_foreignKeys := message_foreignKeys db;
                    reply_table :=
                      Some {| rows := []; reply_foreignKeys := [] |} |}
               = (inr tt, db1)).
  { unfold createForeignKey, bind, get, put, add_fk. simpl.
    now rewrite andb_false_r. }
  rewrite (bind_run _ _ _ _ _ H2).
  rewrite (bind_run _ _ _ _ _ (select_messages_run db1)).
  assert (Hall : Forall (fun m => exists d, msg m = Parsed d)
                   (order_by_id (message_table db1))).
  { apply Forall_forall. intros m Hm.
    apply (proj1 (In_order_by_id _ _)) in Hm.
    rewrite Forall_forall in Hparsed. now apply Hparsed. }
  destruct (scan_total now _ 0 [] 0 Hall) as (replyMap & n & Hscan).
  rewrite Hscan, (bind_run _ _ _ _ _ (lift_run _ db1)). cbn [fst snd].
  pose proof (scan_correct now _ _ _ Hscan) as Hinv.
  destruct (insert_replies_succeed (map_values replyMap) db1) as (db5 & H5).
  - discriminate.
  - assert (E : map Info.replyId (map_values replyMap) = map fst replyMap).
    { rewrite <- (inserted_keys now _ _ _ Hinv). now rewrite map_map. }
    rewrite E. apply Hinv.
  - intros e _ H. exact H.
  - rewrite (bind_run _ _ _ _ _ H5).
    destruct (0 <? n)%nat; [rewrite update_replyId_from_id_run|];
      now eexists.
Qed.

Lemma backfilled_null_or_empty (m : MessageRow) :
  is_null_or_empty (replyId (backfilled m))
  = (replyIdToUse m =? "")%string.
Proof.
  rewrite backfilled_replyId. unfold is_null_or_empty, JS.nonempty.
  now rewrite negb_involutive.
Qed.

Lemma empty_key (m : MessageRow) :
  replyIdToUse m = ""
  <-> is_null_or_empty (replyId m) = true /\ id m = "".
Proof.
  rewrite null_or_empty_hasReplyId. unfold replyIdToUse, hasReplyId.
  destruct (replyId m) as [r|]; simpl.
  - unfold JS.nonempty. destruct (String.eqb_spec r ""); simpl.
    + split; [now intros -> | now intros [_ ->]].
    + split; [congruence | intros [? _]; discriminate].
  - split; [now intros -> | now intros [_ ->]].
Qed.

(** The scan stops at the first payload it cannot read. *)
Lemma scan_stops (pre post : list MessageRow) (m : MessageRow) :
  forall i replyMap n,
    Forall parsed pre ->
    msg m = Malformed ->
    scan now i (pre ++ m :: post) replyMap n = inl (PayloadError (id m)).
Proof.
  induction pre as [|x pre IH]; intros i replyMap n Hpre Hm; simpl.
  - now rewrite Hm.
  - inversion Hpre as [|? ? [d Hd] Hpre']; subst. rewrite Hd.
    now apply IH.
Qed.

Lemma first_malformed (l : list MessageRow) :
  Exists (fun m => msg m = Malformed) l ->
  exists pre m post,
    l = pre ++ m :: post /\ Forall parsed pre /\ msg m = Malformed.
Proof.
  induction l as [|x l IH]; intros H; [inversion H|].
  destruct (msg x) as [d|] eqn:E.
  - inversion H as [? ? Hx|? ? Hl]; subst; [congruence|].
    destruct (IH Hl) as (pre & m & post & -> & Hpre & Hm).
    exists (x :: pre), m, post. split; [reflexivity|].
    split; [|exact Hm]. constructor; [now exists d | exact Hpre].
  - exists [], x, l. repeat split; [constructor | exact E].
Qed.

Lemma read_role_nonempty (d : MsgData) : read_role d <> "".
Proof.
  unfold read_role, or_else. destruct (role d) as [s|]; [|discriminate].
  destruct (JS.nonempty s) eqn:E; [|discriminate].
  now apply nonempty_neq.
Qed.

Lemma read_name_nonempty (d : MsgData) : read_name d <> "".
Proof.
  unfold read_name, or_else. destruct (name d) as [s|];
    [|apply read_role_nonempty].
  destruct (JS.nonempty s) eqn:E; [|apply read_role_nonempty].
  now apply nonempty_neq.
Qed.

Lemma with_replyId_backfilled (m : MessageRow) :
  with_replyId None (backfilled m) = with_replyId None m.
Proof. unfold backfilled. now destruct (is_null_or_empty (replyId m)). Qed.

End MigrationMore.

(** X10.  On a schema on which the migration has not run, [up] completes
    exactly when the scan can read every payload and no message has an
    empty grouping key, that is, no message has both a NULL or empty
    replyId and an empty id. *)
Theorem up_completes_exactly_when
    (unique_fk_names : bool) (now : nat -> string) (db : Migration.Db) :
  MigrationStates.pre_migration db ->
  ((exists db', Migration.up unique_fk_names now db = (inr tt, db'))
   <-> Forall MigrationStates.parsed (Migration.message_table db)
       /\ forall m, In m (Migration.message_table db) ->
            ~ (Migration.is_null_or_empty (Migration.replyId m) = true
               /\ Migration.id m = "")).
Proof.
  intros Hpre. split.
  - intros (db' & Hup). apply up_ok in Hup.
    destruct Hup as (db2 & Hb & Hfull & _).
    apply up_backfill_ok in Hb.
    destruct Hb as (replyMap & n & Hscan & _ & Hmsgs & _).
    apply scan_correct in Hscan.
    destruct Hscan as (_ & _ & _ & _ & Hparsed). split.
    + apply Forall_forall. intros m Hm.
      apply In_order_by_id in Hm.
      apply (In_numbered m _ 0) in Hm. destruct Hm as (j & Hj).
      rewrite Forall_forall in Hparsed. exact (Hparsed _ Hj).
    + intros m Hm Hempty. apply empty_key in Hempty.
      assert (Hin : In (Migration.backfilled m) (Migration.message_table db2))
        by (rewrite Hmsgs; now apply in_map).
      apply Hfull in Hin. rewrite backfilled_null_or_empty, Hempty in Hin.
      discriminate.
  - intros (Hparsed & Hkeys).
    apply up_completes.
    + apply Hpre.
    + exact Hparsed.
    + intros m Hm E. apply (Hkeys m Hm). now apply empty_key.
    + rewrite (pre_migration_name_free db Hpre). apply andb_false_r.
Qed.

Lemma up_completes_exactly_when_witness :
  MigrationStates.pre_migration Migration.db_grouping
  /\ exists db',
       Migration.up false Migration.sample_clock Migration.db_grouping
       = (inr tt, db').
Proof.
  assert (Hpre : MigrationStates.pre_migration Migration.db_grouping)
    by (split; [reflexivity | split; [reflexivity | intros fk []]]).
  split; [exact Hpre|].
  apply (proj2 (up_completes_exactly_when false Migration.sample_clock
                  Migration.db_grouping Hpre)).
  split.
  - repeat constructor; eexists; reflexivity.
  - intros m [<-|[<-|[<-|[]]]] [H1 H2]; discriminate.
Defined.

(** X11.  On a schema on which the migration has not run, if some payload
    cannot be read, [up] fails with the payload error of the first such
    message in ascending id order.  It has then written no reply row and
    changed no message row, and the schema of [message_table] is as before;
    only [reply_table] has been created, empty. *)
Theorem up_stops_on_unreadable_payload
    (unique_fk_names : bool) (now : nat -> string) (db : Migration.Db) :
  MigrationStates.pre_migration db ->
  Exists (fun m => Migration.msg m = Migration.Malformed)
    (Migration.message_table db) ->
  exists pre m post db',
    Migration.order_by_id (Migration.message_table db) = pre ++ m :: post
    /\ Forall MigrationStates.parsed pre
    /\ Migration.msg m = Migration.Malformed
    /\ Migration.up unique_fk_names now db
       = (inl (Migration.PayloadError (Migration.id m)), db')
    /\ Migration.reply_rows db' = []
    /\ Migration.message_table db' = Migration.message_table db
    /\ Migration.replyId_isNullable db' = Migration.replyId_isNullable db
    /\ Migration.message_foreignKeys db' = Migration.message_foreignKeys db.
Proof.
  intros (Hfresh & _) Hex.
  assert (Hex' : Exists (fun m => Migration.msg m = Migration.Malformed)
                   (Migration.order_by_id (Migration.message_table db))).
  { apply Exists_exists in Hex. destruct Hex as (m & Hin & Hm).
    apply Exists_exists. exists m. split; [|exact Hm].
    now apply In_order_by_id. }
  destruct (first_malformed _ Hex') as (pre & m & post & Hsplit & Hpre & Hm).
  set (db1 := {| Migration.message_table := Migration.message_table db;
                 Migration.replyId_isNullable :=
                   Migration.replyId_isNullable db;
                 Migration.message_foreignKeys :=
                   Migration.message_foreignKeys db;
                 Migration.reply_table :=
                   Some {| Migration.rows := [];
                           Migration.reply_foreignKeys :=
                             [Migration.FK_reply_run] |} |}).
  exists pre, m, post, db1.
  split; [exact Hsplit|]. split; [exact Hpre|]. split; [exact Hm|].
  split; [|repeat split].
  unfold Migration.up. apply bind_fail. unfold Migration.up_backfill.
  assert (H1 : Migration.createTable_reply true db
               = (inr tt,
                  {| Migration.message_table := Migration.message_table db;
                     Migration.replyId_isNullable :=
                       Migration.replyId_isNullable db;
                     Migration.message_foreignKeys :=
                       Migration.message_foreignKeys db;
                     Migration.reply_table :=
                       Some {| Migration.rows := [];
                               Migration.reply_foreignKeys := [] |} |})).
  { unfold Migration.createTable_reply, Migration.bind, Migration.get,
      Migration.put. now rewrite Hfresh. }
  rewrite (bind_run _ _ _ _ _ H1).
  assert (H2 : Migration.createForeignKey unique_fk_names "reply_table"
                 Migration.FK_reply_run
                 {| Migration.message_table := Migration.message_table db;
                    Migration.replyId_isNullable :=
                      Migration.replyId_isNullable db;
                    Migration.message_foreignKeys :=
                      Migration.message_foreignKeys db;
                    Migration.reply_table :=
                      Some {| Migration.rows := [];
                              Migration.reply_foreignKeys := [] |} |}
               = (inr tt, db1)).
  { unfold Migration.createForeignKey, Migration.bind, Migration.get,
      Migration.put, Migration.add_fk. simpl. now rewrite andb_false_r. }
  rewrite (bind_run _ _ _ _ _ H2).
  rewrite (bind_run _ _ _ _ _ (select_messages_run db1)).
  change (Migration.message_table db1) with (Migration.message_table db).
  rewrite Hsplit, (scan_stops now pre post m 0 [] 0 Hpre Hm).
  reflexivity.
Qed.

Lemma up_stops_on_unreadable_payload_witness :
  MigrationStates.pre_migration MigrationStates.db_malformed
  /\ exists db',
       Migration.up false Migration.sample_clock MigrationStates.db_malformed
       = (inl (Migration.PayloadError "2"), db')
       /\ Migration.reply_rows db' = [].
Proof.
  assert (Hpre : MigrationStates.pre_migration MigrationStates.db_malformed)
    by (split; [reflexivity | split; [reflexivity | intros fk []]]).
  split; [exact Hpre|].
  destruct (up_stops_on_unreadable_payload false Migration.sample_clock
              MigrationStates.db_malformed Hpre)
    as (pre & m & post & db' & Hsplit & Hparsed & Hm & Hup & Hrows & _).
  - apply Exists_cons_tl. apply Exists_cons_hd. reflexivity.
  - exists db'. split; [|exact Hrows]. rewrite Hup.
    assert (E : Migration.id m = "2"); [|now rewrite E].
    destruct pre as [|x [|y pre]].
    + injection Hsplit as <- _. discriminate.
    + injection Hsplit as _ <- _. reflexivity.
    + exfalso. injection Hsplit as _ <- _.
      inversion Hparsed as [|? ? _ Htl]; subst.
      inversion Htl as [|? ? [d Hd] _]; subst. discriminate.
Defined.

(** X12.  On a schema on which the migration has not run and whose
    payloads can all be read, the integrity check fails exactly when some
    message has a NULL or empty replyId and an empty id as well; the count
    in the error is the number of such messages. *)
Theorem integrity_check_trips_on_empty_id
    (unique_fk_names : bool) (now : nat -> string) (db : Migration.Db) :
  MigrationStates.pre_migration db ->
  Forall MigrationStates.parsed (Migration.message_table db) ->
  let count :=
    List.length
      (filter (fun m => Migration.is_null_or_empty (Migration.replyId m)
                        && (Migration.id m =? "")%string)
         (Migration.message_table db)) in
  ((exists c st,
       Migration.up unique_fk_names now db
       = (inl (Migration.MigrationFailed c), st))
   <-> exists m, In m (Migration.message_table db)
                 /\ Migration.is_null_or_empty (Migration.replyId m) = true
                 /\ Migration.id m = "")
  /\ forall c st,
       Migration.up unique_fk_names now db
       = (inl (Migration.MigrationFailed c), st) ->
       c = count.
Proof.
  intros Hpre Hparsed. cbv zeta.
  destruct (up_backfill_completes unique_fk_names now db (proj1 Hpre) Hparsed)
    as (db2 & Hb).
  rewrite (up_after_backfill _ _ _ _ Hb). cbv zeta.
  destruct (up_backfill_ok _ _ _ _ Hb) as (_ & _ & _ & _ & Hmsgs & _).
  rewrite Hmsgs.
  assert (Hcount : forall l,
    List.length
      (filter (fun m => Migration.is_null_or_empty (Migration.replyId m))
         (map Migration.backfilled l))
    = List.length
        (filter (fun m => Migration.is_null_or_empty (Migration.replyId m)
                          && (Migration.id m =? "")%string) l)).
  { induction l as [|m l IH]; [reflexivity|].
    cbn [map filter]. rewrite backfilled_null_or_empty.
    assert (E : (Migration.replyIdToUse m =? "")%string
                = Migration.is_null_or_empty (Migration.replyId m)
                  && (Migration.id m =? "")%string).
    { destruct (String.eqb_spec (Migration.replyIdToUse m) "") as [K|K].
      - apply empty_key in K. destruct K as [-> ->]. reflexivity.
      - destruct (Migration.is_null_or_empty (Migration.replyId m)) eqn:E1;
          [|reflexivity].
        destruct (String.eqb_spec (Migration.id m) "") as [E2|];
          [|reflexivity].
        exfalso. apply K. apply empty_key. split; assumption. }
    rewrite E.
    destruct (Migration.is_null_or_empty (Migration.replyId m)
              && (Migration.id m =? "")%string);
      cbn [List.length]; now rewrite IH. }
  rewrite Hcount. set (count := List.length _).
  assert (Hwit : (0 < count)%nat
                 <-> exists m, In m (Migration.message_table db)
                       /\ Migration.is_null_or_empty (Migration.replyId m)
                          = true
                       /\ Migration.id m = "").
  { unfold count. split.
    - intros Hpos.
      destruct (filter _ (Migration.message_table db)) as [|m l] eqn:E;
        [simpl in Hpos; lia|].
      assert (Hin : In m (filter
                (fun m => Migration.is_null_or_empty (Migration.replyId m)
                          && (Migration.id m =? "")%string)
                (Migration.message_table db))) by (rewrite E; now left).
      apply filter_In in Hin. destruct Hin as (Hin & Hb').
      apply andb_true_iff in Hb'. destruct Hb' as (H1 & H2).
      apply String.eqb_eq in H2. now exists m.
    - intros (m & Hin & H1 & H2).
      assert (Hf : In m (filter
                (fun m => Migration.is_null_or_empty (Migration.replyId m)
                          && (Migration.id m =? "")%string)
                (Migration.message_table db))).
      { apply filter_In. split; [exact Hin|]. rewrite H1, H2. reflexivity. }
      destruct (filter _ (Migration.message_table db)); [destruct Hf|].
      simpl. lia. }
  destruct (Nat.ltb_spec 0 count) as [Hpos|Hzero].
  - split.
    + split; [intros _; now apply Hwit | intros _; now exists count, db2].
    + now intros c st [= <- _].
  - split.
    + split.
      * intros (c & st & H). apply up_constrain_error in H.
        destruct H; discriminate.
      * intros H. apply Hwit in H. lia.
    + intros c st H. apply up_constrain_error in H. destruct H; discriminate.
Qed.

Lemma integrity_check_trips_on_empty_id_witness :
  MigrationStates.pre_migration Migration.db_empty_id
  /\ Forall MigrationStates.parsed
       (Migration.message_table Migration.db_empty_id)
  /\ exists c st,
       Migration.up false Migration.sample_clock Migration.db_empty_id
       = (inl (Migration.MigrationFailed c), st).
Proof.
  assert (Hpre : MigrationStates.pre_migration Migration.db_empty_id)
    by (split; [reflexivity | split; [reflexivity | intros fk []]]).
  assert (Hparsed : Forall MigrationStates.parsed
                      (Migration.message_table Migration.db_empty_id))
    by (repeat constructor; eexists; reflexivity).
  split; [exact Hpre|]. split; [exact Hparsed|].
  apply (proj2 (proj1 (integrity_check_trips_on_empty_id
                         false Migration.sample_clock Migration.db_empty_id
                         Hpre Hparsed))).
  eexists. split; [now left|]. split; reflexivity.
Defined.

(** X13.  Every reply row inserted by a completed [up] is well formed: its
    run_id is that of the first message of its group in scan order, its
    finishedAt is not NULL and is not smaller than its createdAt, and its
    replyRole and replyName are not empty (a missing role reads as
    "unknown", a missing name as the role). *)
Theorem inserted_replies_are_well_formed
    (unique_fk_names : bool) (now : nat -> string) (db db' : Migration.Db) :
  Migration.up unique_fk_names now db = (inr tt, db') ->
  let scanned :=
    Migration.numbered 0
      (Migration.order_by_id (Migration.message_table db)) in
  exists inserted,
    Migration.reply_rows db' = Migration.reply_rows db ++ inserted
    /\ forall row, In row inserted ->
         (exists first rest,
             Migration.group (Migration.ReplyRow.replyId row) scanned
               = first :: rest
             /\ Migration.ReplyRow.run_id row = Migration.run_id (snd first))
         /\ (exists finished,
               Migration.ReplyRow.finishedAt row = Some finished
               /\ String.leb (Migration.ReplyRow.createdAt row) finished
                  = true)
         /\ Migration.ReplyRow.replyRole row <> ""
         /\ Migration.ReplyRow.replyName row <> "".
Proof.
  intros H. cbv zeta.
  apply up_ok in H. destruct H as (db2 & Hb & _ & _ & Hr & _).
  apply up_backfill_ok in Hb.
  destruct Hb as (replyMap & n & Hscan & Hrows & _).
  apply scan_correct in Hscan.
  exists (map Migration.row_of (Migration.map_values replyMap)).
  split; [unfold Migration.reply_rows in *; now rewrite Hr|].
  intros row Hin.
  destruct (inserted_row now _ _ _ row Hscan Hin) as (e & -> & Hsum).
  destruct Hscan as (_ & _ & _ & _ & Hparsed).
  destruct Hsum
    as (_ & (first & rest & Hg & Hc & Hrun)
        & (pre & im & post & Hg' & Hf & Hro & Hna & Hpre & _)).
  assert (Him : exists d, Migration.msg (snd im) = Migration.Parsed d).
  { rewrite Forall_forall in Hparsed. apply Hparsed.
    assert (Hin' : In im (Migration.group
                            (Migration.ReplyRow.replyId (Migration.row_of e))
                            (Migration.numbered 0
                               (Migration.order_by_id
                                  (Migration.message_table db)))))
      by (rewrite Hg'; apply in_app_iff; right; now left).
    unfold Migration.group in Hin'. now apply filter_In in Hin'. }
  destruct Him as (d & Hd).
  split; [|split; [|split]].
  - exists first, rest. split; [exact Hg | exact Hrun].
  - exists (Migration.Info.finishedAt e). split; [reflexivity|].
    simpl. rewrite Hc, Hf. rewrite Hg in Hg'.
    destruct pre as [|x pre].
    + injection Hg' as -> _. apply leb_refl.
    + injection Hg' as -> _. apply ltb_leb, Hpre. now left.
  - simpl. rewrite Hro. unfold Migration.role_of. rewrite Hd.
    apply read_role_nonempty.
  - simpl. rewrite Hna. unfold Migration.name_of. rewrite Hd.
    apply read_name_nonempty.
Qed.

Lemma inserted_replies_are_well_formed_witness :
  exists db',
    Migration.up false Migration.sample_clock Migration.db_out_of_order
      = (inr tt, db')
    /\ exists inserted,
         Migration.reply_rows db'
         = Migration.reply_rows Migration.db_out_of_order ++ inserted.
Proof.
  eexists. split; [vm_compute; reflexivity|].
  destruct (inserted_replies_are_well_formed
              false Migration.sample_clock Migration.db_out_of_order
              _ eq_refl) as (inserted & Hrows & _).
  exists inserted. exact Hrows.
Defined.

(** X14.  A completed [up] keeps the rows of [message_table] in number and
    order and changes nothing but replyIds: a row with a non-empty replyId
    is left exactly as it was, and a row with a NULL or empty replyId
    differs only in that its replyId is now its own id.  The rows that
    [reply_table] held before and the foreign keys that [message_table] had
    before are still there. *)
Theorem up_changes_only_missing_replyIds
    (unique_fk_names : bool) (now : nat -> string) (db db' : Migration.Db) :
  Migration.up unique_fk_names now db = (inr tt, db') ->
  Forall2
    (fun m m' =>
       Migration.id m' = Migration.id m
       /\ Migration.run_id m' = Migration.run_id m
       /\ Migration.msg m' = Migration.msg m
       /\ (Migration.hasReplyId m = true -> m' = m)
       /\ (Migration.hasReplyId m = false ->
           Migration.replyId m' = Some (Migration.id m)))
    (Migration.message_table db) (Migration.message_table db')
  /\ (exists inserted,
        Migration.reply_rows db' = Migration.reply_rows db ++ inserted)
  /\ Migration.message_foreignKeys db'
     = Migration.message_foreignKeys db ++ [Migration.FK_message_reply].
Proof.
  intros H. apply up_ok in H.
  destruct H as (db2 & Hb & _ & Hm & Hr & _ & Hfk).
  apply up_backfill_ok in Hb.
  destruct Hb as (replyMap & n & _ & Hrows & Hmsgs & _ & Hfks & _).
  split; [|split].
  - rewrite Hm, Hmsgs. clear.
    induction (Migration.message_table db) as [|m l IH]; simpl;
      [constructor | constructor; [|exact IH]].
    unfold Migration.backfilled. rewrite null_or_empty_hasReplyId.
    destruct (Migration.hasReplyId m); simpl; repeat split;
      try reflexivity; discriminate.
  - exists (map Migration.row_of (Migration.map_values replyMap)).
    unfold Migration.reply_rows in *. now rewrite Hr.
  - now rewrite Hfk, Hfks.
Qed.

Lemma up_changes_only_missing_replyIds_witness :
  exists db',
    Migration.up false Migration.sample_clock Migration.db_grouping
      = (inr tt, db')
    /\ Migration.message_foreignKeys db' = [Migration.FK_message_reply].
Proof.
  eexists. split; [vm_compute; reflexivity|].
  exact (proj2 (proj2 (up_changes_only_missing_replyIds
                         false Migration.sample_clock Migration.db_grouping
                         _ eq_refl))).
Defined.

(** X15.  On a schema on which the migration has not run, [down] after a
    completed [up] gives back the database it started from with every
    replyId set to NULL: same rows otherwise, same foreign keys, replyId
    nullable, no [reply_table].  When no message had a replyId to begin
    with, [down] after [up] is the identity. *)
Theorem up_then_down_restores_schema
    (unique_fk_names : bool) (now : nat -> string) (db db1 : Migration.Db) :
  MigrationStates.pre_migration db ->
  Migration.up unique_fk_names now db = (inr tt, db1) ->
  Migration.down db1 = (inr tt, MigrationStates.without_replyIds db)
  /\ ((forall m, In m (Migration.message_table db) ->
         Migration.replyId m = None) ->
      Migration.down db1 = (inr tt, db)).
Proof.
  intros (Hfresh & Hnull & Hfks) Hup.
  apply up_ok in Hup. destruct Hup as (db2 & Hb & _ & Hm & _ & _ & Hfk).
  apply up_backfill_ok in Hb.
  destruct Hb as (_ & _ & _ & _ & Hmsgs & _ & Hfks2 & _).
  assert (Hdown : Migration.down db1
                  = (inr tt, MigrationStates.without_replyIds db)).
  { rewrite down_run. unfold MigrationStates.without_replyIds.
    rewrite Hm, Hmsgs, Hfk, Hfks2, Hnull, Hfresh.
    rewrite find_last_fk;
      [|intros x Hx; exact (proj1 (Hfks x Hx)) | reflexivity].
    rewrite (remove_first_last _ "FK_message_reply");
      [|intros x Hx; exact (proj2 (Hfks x Hx)) | reflexivity].
    rewrite map_map. do 2 f_equal.
    apply map_ext. intros m. apply with_replyId_backfilled. }
  split; [exact Hdown|].
  intros Hnone. rewrite Hdown. f_equal.
  unfold MigrationStates.without_replyIds. destruct db as [ms nl fks t].
  simpl in *. f_equal.
  rewrite <- (map_id ms) at 2. apply map_ext_in. intros m Hin.
  specialize (Hnone m Hin). destruct m as [i r p rid]. simpl in *.
  now subst rid.
Qed.

Lemma up_then_down_restores_schema_witness :
  MigrationStates.pre_migration Migration.db_grouping
  /\ exists db1,
       Migration.up false Migration.sample_clock Migration.db_grouping
         = (inr tt, db1)
       /\ Migration.down db1
          = (inr tt, MigrationStates.without_replyIds Migration.db_grouping).
Proof.
  assert (Hpre : MigrationStates.pre_migration Migration.db_grouping)
    by (split; [reflexivity | split; [reflexivity | intros fk []]]).
  split; [exact Hpre|].
  eexists. split; [vm_compute; reflexivity|].
  exact (proj1 (up_then_down_restores_schema
                  false Migration.sample_clock Migration.db_grouping _
                  Hpre eq_refl)).
Defined.

(** X16.  An ungrouped message is not always a reply of its own: when the
    non-empty id of a message without replyId is the replyId of another
    message, the two have the same grouping key, the scan puts them in one
    group, and after a completed [up] both rows refer to the same single
    row of [reply_table]. *)
Theorem ungrouped_message_can_join_a_reply
    (unique_fk_names : bool) (now : nat -> string) (db db' : Migration.Db)
    (m1 m2 : Migration.MessageRow) :
  Migration.up unique_fk_names now db = (inr tt, db') ->
  In m1 (Migration.message_table db) ->
  In m2 (Migration.message_table db) ->
  Migration.hasReplyId m1 = false ->
  Migration.id m1 <> "" ->
  Migration.replyId m2 = Some (Migration.id m1) ->
  let scanned :=
    Migration.numbered 0
      (Migration.order_by_id (Migration.message_table db)) in
  (exists i1 i2,
      In (i1, m1) (Migration.group (Migration.id m1) scanned)
      /\ In (i2, m2) (Migration.group (Migration.id m1) scanned))
  /\ (exists m1' m2',
        In m1' (Migration.message_table db')
        /\ In m2' (Migration.message_table db')
        /\ Migration.id m1' = Migration.id m1
        /\ Migration.id m2' = Migration.id m2
        /\ Migration.replyId m1' = Some (Migration.id m1)
        /\ Migration.replyId m2' = Some (Migration.id m1))
  /\ (exists inserted,
        Migration.reply_rows db' = Migration.reply_rows db ++ inserted
        /\ NoDup (map Migration.ReplyRow.replyId inserted)
        /\ In (Migration.id m1) (map Migration.ReplyRow.replyId inserted)).
Proof.
  intros Hup Hin1 Hin2 Hno Hid Hrid. cbv zeta.
  assert (Hk1 : Migration.replyIdToUse m1 = Migration.id m1)
    by (unfold Migration.replyIdToUse; now rewrite Hno).
  assert (Hk2 : Migration.replyIdToUse m2 = Migration.id m1).
  { unfold Migration.replyIdToUse, Migration.hasReplyId. rewrite Hrid.
    apply nonempty_neq in Hid. unfold JS.nonempty in *. rewrite Hid.
    reflexivity. }
  apply up_ok in Hup. destruct Hup as (db2 & Hb & _ & Hm & Hr & _).
  apply up_backfill_ok in Hb.
  destruct Hb as (replyMap & n & Hscan & Hrows & Hmsgs & _).
  apply scan_correct in Hscan.
  pose proof (inserted_keys now _ _ _ Hscan) as Hkeys.
  destruct Hscan as (Hnd & Hin_keys & _).
  pose proof Hin1 as Hs1. apply In_order_by_id in Hs1.
  apply (In_numbered m1 _ 0) in Hs1. destruct Hs1 as (i1 & Hi1).
  pose proof Hin2 as Hs2. apply In_order_by_id in Hs2.
  apply (In_numbered m2 _ 0) in Hs2. destruct Hs2 as (i2 & Hi2).
  split; [|split].
  - exists i1, i2. unfold Migration.group. split; apply filter_In; split;
      try assumption; apply String.eqb_eq; assumption.
  - exists (Migration.backfilled m1), (Migration.backfilled m2).
    rewrite Hm, Hmsgs, !backfilled_replyId, Hk1, Hk2.
    repeat split; try (now apply in_map);
      unfold Migration.backfilled;
      match goal with
      | |- context [Migration.is_null_or_empty ?r] =>
          now destruct (Migration.is_null_or_empty r)
      end.
  - exists (map Migration.row_of (Migration.map_values replyMap)).
    split; [unfold Migration.reply_rows in *; now rewrite Hr|].
    rewrite Hkeys. split; [exact Hnd|].
    apply Hin_keys. exists (i1, m1). split; [exact Hi1 | exact Hk1].
Qed.

Lemma ungrouped_message_can_join_a_reply_witness :
  exists db',
    Migration.up false Migration.sample_clock MigrationStates.db_collision
      = (inr tt, db')
    /\ map Migration.ReplyRow.replyId (Migration.reply_rows db') = ["A"]
    /\ exists inserted,
         Migration.reply_rows db'
           = Migration.reply_rows MigrationStates.db_collision ++ inserted
         /\ In "A" (map Migration.ReplyRow.replyId inserted).
Proof.
  eexists. split; [vm_compute; reflexivity|]. split; [reflexivity|].
  destruct (ungrouped_message_can_join_a_reply
              false Migration.sample_clock MigrationStates.db_collision _
              (Migration.sample_row "A" None "user" "09:00")
              (Migration.sample_row "B" (Some "A") "assistant" "09:05")
              eq_refl (or_introl eq_refl) (or_intror (or_introl eq_refl))
              eq_refl ltac:(discriminate) eq_refl)
    as (_ & _ & inserted & Hrows & _ & Hin).
  exists inserted. split; [exact Hrows | exact Hin].
Defined.


(** ** The options and the steps of initializeDatabase *)

Section BootstrapFacts.

Import Bootstrap.

Lemma obj_get_set (k k' : string) (v : Value) (o : Obj) :
  obj_get k' (obj_set k v o)
  = if (k =? k')%string then Some v else obj_get k' o.
Proof.
  induction o as [|[k1 v1] o IH]; simpl.
  - destruct (k =? k')%string; reflexivity.
  - destruct (String.eqb_spec k1 k) as [->|Hne]; simpl.
    + destruct (k =? k')%string; reflexivity.
    + rewrite IH. destruct (String.eqb_spec k k') as [->|Hne'].
      * apply String.eqb_neq in Hne. now rewrite Hne.
      * reflexivity.
Qed.

Lemma obj_set_keys (k : string) (v : Value) (o : Obj) :
  map fst (obj_set k v o)
  = if existsb (String.eqb k) (map fst o) then map fst o
    else map fst o ++ [k].
Proof.
  induction o as [|[k1 v1] o IH]; simpl; [reflexivity|].
  rewrite (String.eqb_sym k k1).
  destruct (String.eqb_spec k1 k) as [->|Hne]; simpl; [reflexivity|].
  rewrite IH. now destruct (existsb (String.eqb k) (map fst o)).
Qed.

Lemma obj_set_NoDup (k : string) (v : Value) (o : Obj) :
  NoDup (map fst o) -> NoDup (map fst (obj_set k v o)).
Proof.
  intros Hnd. rewrite obj_set_keys.
  destruct (existsb (String.eqb k) (map fst o)) eqn:E; [exact Hnd|].
  apply NoDup_snoc; [exact Hnd|]. intros Hin.
  assert (Ht : existsb (String.eqb k) (map fst o) = true).
  { apply existsb_exists. exists k. split; [exact Hin|].
    apply String.eqb_refl. }
  congruence.
Qed.

Lemma obj_set_In_other (k k' : string) (v v' : Value) (o : Obj) :
  k' <> k -> (In (k', v') (obj_set k v o) <-> In (k', v') o).
Proof.
  intros Hne. induction o as [|[k1 v1] o IH]; simpl.
  - split; [intros [[= <- _]|[]]; congruence | tauto].
  - destruct (String.eqb_spec k1 k) as [->|Hne1]; simpl.
    + split; intros [[= <- _]|H]; try congruence; now right.
    + rewrite IH. tauto.
Qed.

Lemma obj_set_In_same (k : string) (v v' : Value) (o : Obj) :
  NoDup (map fst o) -> In (k, v') (obj_set k v o) -> v' = v.
Proof.
  induction o as [|[k1 v1] o IH]; simpl; intros Hnd.
  - now intros [[= <-]|[]].
  - inversion Hnd as [|? ? Hnot Hnd']; subst.
    destruct (String.eqb_spec k1 k) as [->|Hne1]; simpl.
    + intros [[= <-]|H]; [reflexivity|].
      exfalso. apply Hnot. apply (in_map fst) in H. exact H.
    + intros [[= -> _]|H]; [congruence|]. now apply IH.
Qed.

Lemma options_NoDup (databaseConfig : Obj) :
  NoDup (map fst databaseConfig) ->
  NoDup (map fst (options_of databaseConfig)).
Proof. intros H. unfold options_of. now repeat apply obj_set_NoDup. Qed.

End BootstrapFacts.

(** X17.  Whatever the caller passes as [databaseConfig], the options given
    to the data source have synchronize and migrationsRun on, logging off,
    and the entity list and migration list of this module; every other
    option of the caller is passed on unchanged.  [initialize] is the first
    thing called, with exactly these options. *)
Theorem initialize_options_are_forced
    {E : Type} (initialize : Bootstrap.Obj -> option E)
    (updateRunStatusAtBeginning updateInputRequests : option E)
    (databaseConfig : Bootstrap.Obj) :
  let options := Bootstrap.options_of databaseConfig in
  Bootstrap.obj_get "synchronize" options = Some (Bootstrap.VBool true)
  /\ Bootstrap.obj_get "migrationsRun" options = Some (Bootstrap.VBool true)
  /\ Bootstrap.obj_get "logging" options = Some (Bootstrap.VBool false)
  /\ Bootstrap.obj_get "entities" options = Some Bootstrap.VEntities
  /\ Bootstrap.obj_get "migrations" options = Some Bootstrap.VMigrations
  /\ (forall k, ~ In k Bootstrap.own_keys ->
        Bootstrap.obj_get k options = Bootstrap.obj_get k databaseConfig)
  /\ exists later,
       fst (Bootstrap.initializeDatabase E initialize
              updateRunStatusAtBeginning updateInputRequests databaseConfig)
       = Bootstrap.initialize_called options :: later.
Proof.
  cbv zeta. unfold Bootstrap.options_of.
  repeat split; try (rewrite !obj_get_set; reflexivity).
  - intros k Hk. rewrite !obj_get_set.
    unfold Bootstrap.own_keys in Hk. simpl in Hk.
    repeat match goal with
           | |- context [(?a =? k)%string] =>
               destruct (String.eqb_spec a k); [exfalso; tauto|]
           end.
    reflexivity.
  - unfold Bootstrap.initializeDatabase, Bootstrap.try_block.
    destruct (initialize _); [now eexists|].
    destruct updateRunStatusAtBeginning; [now eexists|].
    destruct updateInputRequests; now eexists.
Qed.

(** X18.  The option text written to the log after a successful
    [initialize] has no entry for entities or for migrations.  It has the
    three forced flags, and each option of the caller outside the five
    forced keys whose value [JSON.stringify] writes, that is, a value that
    is not undefined, a function or a symbol.  It has no entry whose value
    is undefined, a function or a symbol. *)
Theorem logged_options_keep_caller_values (databaseConfig : Bootstrap.Obj) :
  NoDup (map fst databaseConfig) ->
  let printed :=
    Bootstrap.stringified
      (Bootstrap.printingOptions_of (Bootstrap.options_of databaseConfig)) in
  (forall v, ~ In ("entities", v) printed /\ ~ In ("migrations", v) printed)
  /\ In ("synchronize", Bootstrap.VBool true) printed
  /\ In ("migrationsRun", Bootstrap.VBool true) printed
  /\ In ("logging", Bootstrap.VBool false) printed
  /\ (forall k v,
        In (k, v) databaseConfig ->
        ~ In k Bootstrap.own_keys ->
        Bootstrap.written v = true ->
        In (k, v) printed)
  /\ (forall k v,
        In (k, v) printed ->
        v <> Bootstrap.VUndefined
        /\ v <> Bootstrap.VFunction
        /\ v <> Bootstrap.VSymbol).
Proof.
  intros Hnd. cbv zeta.
  pose proof (options_NoDup _ Hnd) as Hopt.
  unfold Bootstrap.stringified, Bootstrap.printingOptions_of.
  assert (Hkeep : forall k v,
            k <> "entities" -> k <> "migrations" ->
            Bootstrap.written v = true ->
            In (k, v) (Bootstrap.options_of databaseConfig) ->
            In (k, v)
              (filter (fun kv => Bootstrap.written (snd kv))
                 (Bootstrap.obj_set "migrations" Bootstrap.VUndefined
                    (Bootstrap.obj_set "entities" Bootstrap.VUndefined
                       (Bootstrap.options_of databaseConfig))))).
  { intros k v H1 H2 Hv Hin. apply filter_In. split.
    - apply obj_set_In_other; [exact H2|].
      now apply obj_set_In_other.
    - exact Hv. }
  assert (Hforced : forall k v,
            Bootstrap.obj_get k (Bootstrap.options_of databaseConfig) = Some v ->
            In (k, v) (Bootstrap.options_of databaseConfig)).
  { intros k v. generalize (Bootstrap.options_of databaseConfig).
    induction o as [|[k1 v1] o IH]; simpl; [discriminate|].
    destruct (String.eqb_spec k1 k) as [->|_].
    - intros [= ->]. now left.
    - intros H. right. now apply IH. }
  split; [|split; [|split; [|split; [|split]]]].
  - intros v. split; intros Hin; apply filter_In in Hin;
      destruct Hin as (Hin & Hdef).
    + apply obj_set_In_other in Hin; [|discriminate].
      apply obj_set_In_same in Hin; [|exact Hopt]. now subst v.
    + apply obj_set_In_same in Hin; [|now apply obj_set_NoDup].
      now subst v.
  - apply Hkeep; [discriminate | discriminate | reflexivity |].
    apply Hforced.
    unfold Bootstrap.options_of. now rewrite !obj_get_set.
  - apply Hkeep; [discriminate | discriminate | reflexivity |].
    apply Hforced.
    unfold Bootstrap.options_of. now rewrite !obj_get_set.
  - apply Hkeep; [discriminate | discriminate | reflexivity |].
    apply Hforced.
    unfold Bootstrap.options_of. now rewrite !obj_get_set.
  - intros k v Hin Hk Hv. unfold Bootstrap.own_keys in Hk. simpl in Hk.
    apply Hkeep; try exact Hv; try (intros ->; tauto).
    unfold Bootstrap.options_of.
    repeat (apply obj_set_In_other; [intros ->; tauto|]).
    exact Hin.
  - intros k v Hin. apply filter_In in Hin. destruct Hin as (_ & Hw).
    cbn [snd] in Hw. destruct v; repeat split; discriminate.
Qed.

Lemma logged_options_keep_caller_values_witness :
  let databaseConfig :=
    [ ("type", Bootstrap.VData "sqlite");
      ("database", Bootstrap.VData "studio.db");
      ("namingStrategy", Bootstrap.VFunction);
      ("logging", Bootstrap.VBool true) ] in
  NoDup (map fst databaseConfig)
  /\ In ("database", Bootstrap.VData "studio.db")
       (Bootstrap.stringified
          (Bootstrap.printingOptions_of
             (Bootstrap.options_of databaseConfig)))
  /\ In ("logging", Bootstrap.VBool false)
       (Bootstrap.stringified
          (Bootstrap.printingOptions_of
             (Bootstrap.options_of databaseConfig)))
  /\ Bootstrap.stringified
       (Bootstrap.printingOptions_of (Bootstrap.options_of databaseConfig))
     = [ ("type", Bootstrap.VData "sqlite");
         ("database", Bootstrap.VData "studio.db");
         ("logging", Bootstrap.VBool false);
         ("synchronize", Bootstrap.VBool true);
         ("migrationsRun", Bootstrap.VBool true) ].
Proof.
  cbv zeta.
  assert (Hnd : NoDup (map fst [ ("type", Bootstrap.VData "sqlite");
                                 ("database", Bootstrap.VData "studio.db");
                                 ("namingStrategy", Bootstrap.VFunction);
                                 ("logging", Bootstrap.VBool true) ])).
  { simpl. repeat constructor; simpl; intuition discriminate. }
  split; [exact Hnd|].
  destruct (logged_options_keep_caller_values _ Hnd)
    as (_ & _ & _ & Hlog & Hkeep & _).
  split; [|split; [exact Hlog | reflexivity]].
  apply Hkeep.
  - right. now left.
  - unfold Bootstrap.own_keys. simpl. intuition discriminate.
  - reflexivity.
Defined.

(** X19.  [initializeDatabase] returns normally exactly when [initialize]
    and the two update passes all return; then "Done" is the last thing
    logged and no error is logged.  Otherwise it throws the error of the
    first call that threw, after logging that same error last, "Done" is
    never logged, and no later call has been made: in particular
    [updateInputRequests] is called only after [initialize] and
    [updateRunStatusAtBeginning] have returned. *)
Theorem initializeDatabase_stops_at_first_error
    {E : Type} (initialize : Bootstrap.Obj -> option E)
    (updateRunStatusAtBeginning updateInputRequests : option E)
    (databaseConfig : Bootstrap.Obj) :
  let options := Bootstrap.options_of databaseConfig in
  let run :=
    Bootstrap.initializeDatabase E initialize updateRunStatusAtBeginning
      updateInputRequests databaseConfig in
  (snd run = None
   <-> initialize options = None
       /\ updateRunStatusAtBeginning = None
       /\ updateInputRequests = None)
  /\ (snd run = None ->
      exists before,
        fst run = before ++ [Bootstrap.log_done]
        /\ forall e, ~ In (Bootstrap.error_logged e) (fst run))
  /\ (forall e, snd run = Some e ->
        (exists before, fst run = before ++ [Bootstrap.error_logged e])
        /\ ~ In Bootstrap.log_done (fst run)
        /\ (initialize options = Some e
            \/ initialize options = None
               /\ (updateRunStatusAtBeginning = Some e
                   \/ updateRunStatusAtBeginning = None
                      /\ updateInputRequests = Some e)))
  /\ (In Bootstrap.updateInputRequests_called (fst run) ->
      initialize options = None /\ updateRunStatusAtBeginning = None)
  /\ (In Bootstrap.updateRunStatusAtBeginning_called (fst run) ->
      initialize options = None).
Proof.
  cbv zeta. unfold Bootstrap.initializeDatabase, Bootstrap.try_block.
  destruct (initialize (Bootstrap.options_of databaseConfig)) as [e0|];
    [|destruct updateRunStatusAtBeginning as [e1|];
      [|destruct updateInputRequests as [e2|]]];
    cbn [fst snd app]; (split; [|split; [|split; [|split]]]).
  all: try (intuition congruence).
  all: try (intros H; discriminate H).
  all: try (intros e H; discriminate H).
  all: try (intros Hin; simpl in Hin; exfalso; intuition discriminate).
  - intros e [= <-]. split; [now eexists [_]|].
    split; [simpl; intuition discriminate | now left].
  - intros e [= <-]. split; [now eexists [_; _; _; _]|].
    split; [simpl; intuition discriminate|].
    right. split; [reflexivity | now left].
  - intros e [= <-]. split; [now eexists [_; _; _; _; _]|].
    split; [simpl; intuition discriminate|].
    right. split; [reflexivity|]. right. now split.
  - intros _. eexists [_; _; _; _; _]. split; [reflexivity|].
    intros e Hin. simpl in Hin. intuition discriminate.
Qed.
